(** * calver-release: the CalVer generator, the git adapter and the release
    command, embedded in Rocq.

    The repository has three JavaScript files:
    - [lib/calver.js]: class [CalVerGenerator] ([generate],
      [generateIncremental], [getSupportedFormats]);
    - [lib/git-operations.js]: class [GitOperations], a wrapper over simple-git;
    - [bin/calver-release.js]: the [create] command ([createReleaseBranch],
      [runInteractiveMode]) and its [action] handler.

    Conventions.  A JavaScript string is a [string]; each [ascii] stands for one
    UTF-16 code unit in the range 0..255.  A JavaScript Number that holds an
    integer is a [number] carrying the integer as a [Z], with the rounding of
    IEEE 754 binary64 written out ([round64]).

    The definitions come first, module by module in the order of the source
    files; then the properties the specification claims (C1 to C10); then
    further properties of the code (X1 to X18). *)

From Stdlib Require Import ZArith List String Ascii Bool Lia.
Import ListNotations.

Local Open Scope string_scope.
Local Open Scope Z_scope.
Local Open Scope list_scope.

Declare Scope js_scope.
Delimit Scope js_scope with js.
Infix "+++" := String.append (at level 60, right associativity) : js_scope.
Local Open Scope js_scope.

(** ** The fragment of the JavaScript runtime the program uses *)
Module JS.

(** *** Strings *)

(** [s.startsWith(p)]: [p] is a code-unit prefix of [s]. *)
Fixpoint startsWith (s p : string) {struct p} : bool :=
  match p with
  | EmptyString => true
  | String b p' =>
      match s with
      | EmptyString => false
      | String a s' => Ascii.eqb a b && startsWith s' p'
      end
  end.

(** [s.split(sep)] for a separator of one code unit.  The result is never
    empty: the empty string splits into one empty part. *)
Fixpoint split (s : string) (sep : ascii) : list string :=
  match s with
  | EmptyString => [EmptyString]
  | String c s' =>
      if Ascii.eqb c sep then EmptyString :: split s' sep
      else match split s' sep with
           | [] => [String c EmptyString]
           | p :: ps => String c p :: ps
           end
  end.

(** [ToString] of the result of an array index: an index out of range reads
    [undefined], whose string form is "undefined". *)
Definition ToString_elem (x : option string) : string :=
  match x with
  | Some s => s
  | None => "undefined"%string
  end.

(** [s.toLowerCase()] on code units below 256: A-Z and the Latin-1 capitals
    (U+00C0..U+00DE, the multiplication sign U+00D7 apart) move up by 32. *)
Definition toLowerCaseChar (c : ascii) : ascii :=
  let n := nat_of_ascii c in
  if ((65 <=? n) && (n <=? 90))%nat then ascii_of_nat (n + 32)
  else if ((192 <=? n) && (n <=? 222) && negb (n =? 215))%nat then ascii_of_nat (n + 32)
  else c.

Fixpoint toLowerCase (s : string) : string :=
  match s with
  | EmptyString => EmptyString
  | String c s' => String (toLowerCaseChar c) (toLowerCase s')
  end.

(** *** Numbers *)

(** The Number values that an integer computation can meet.  [Fin z] is the
    double whose value is the integer [z]; the two zeros are both [Fin 0]
    (the program only tests a zero for truthiness, where they agree). *)
Inductive number : Type :=
| NaN
| NegInf
| Fin (z : Z)
| PosInf.

Definition number_eqb (a b : number) : bool :=
  match a, b with
  | NaN, NaN | NegInf, NegInf | PosInf, PosInf => true
  | Fin x, Fin y => x =? y
  | _, _ => false
  end.

(** Round the magnitude [a >= 2^53] to 53 significant bits, ties to even. *)
Definition roundMagnitude (a : Z) : Z :=
  let e := Z.log2 a - 52 in
  let q := a / 2 ^ e in
  let r := a mod 2 ^ e in
  let half := 2 ^ (e - 1) in
  let q' := if r <? half then q
            else if half <? r then q + 1
            else if Z.even q then q else q + 1 in
  q' * 2 ^ e.

(** The Number for the mathematical integer [z]: exact below 2^53 in
    magnitude, rounded to nearest (ties to even) above, infinite from 2^1024. *)
Definition round64 (z : Z) : number :=
  let a := Z.abs z in
  if a <? 2 ^ 53 then Fin z
  else
    let m := roundMagnitude a in
    if 2 ^ 1024 <=? m then (if z <? 0 then NegInf else PosInf)
    else Fin (Z.sgn z * m).

(** [a + b] *)
Definition Number_add (a b : number) : number :=
  match a, b with
  | NaN, _ | _, NaN => NaN
  | PosInf, NegInf | NegInf, PosInf => NaN
  | PosInf, _ | _, PosInf => PosInf
  | NegInf, _ | _, NegInf => NegInf
  | Fin x, Fin y => round64 (x + y)
  end.

(** [a - b] *)
Definition Number_sub (a b : number) : number :=
  match a, b with
  | NaN, _ | _, NaN => NaN
  | PosInf, PosInf | NegInf, NegInf => NaN
  | PosInf, _ | _, NegInf => PosInf
  | NegInf, _ | _, PosInf => NegInf
  | Fin x, Fin y => round64 (x - y)
  end.

(** [ToBoolean]: NaN and zero are falsy. *)
Definition ToBoolean (a : number) : bool :=
  match a with
  | NaN => false
  | Fin z => negb (z =? 0)
  | _ => true
  end.

(** [a || b] *)
Definition LogicalOr (a b : number) : number :=
  if ToBoolean a then a else b.

(** *** parseInt *)

(** White space and line terminators among the code units below 256:
    TAB, LF, VT, FF, CR, SP and NBSP. *)
Definition isStrWhiteSpaceChar (c : ascii) : bool :=
  let n := nat_of_ascii c in
  (((9 <=? n) && (n <=? 13)) || (n =? 32) || (n =? 160))%nat.

Fixpoint trimStart (s : string) : string :=
  match s with
  | EmptyString => EmptyString
  | String c s' => if isStrWhiteSpaceChar c then trimStart s' else s
  end.

(** The value of a digit in radix up to 36. *)
Definition digitValue (c : ascii) : option Z :=
  let n := Z.of_nat (nat_of_ascii c) in
  if (48 <=? n) && (n <=? 57) then Some (n - 48)
  else if (97 <=? n) && (n <=? 122) then Some (n - 87)
  else if (65 <=? n) && (n <=? 90) then Some (n - 55)
  else None.

(** The mathematical integer of the longest prefix of radix-[R] digits;
    [acc] is [None] until a digit has been read. *)
Fixpoint parseDigits (R : Z) (s : string) (acc : option Z) : option Z :=
  match s with
  | EmptyString => acc
  | String c s' =>
      match digitValue c with
      | Some d =>
          if d <? R
          then parseDigits R s' (Some (match acc with Some a => a * R + d | None => d end))
          else acc
      | None => acc
      end
  end.

(** [parseInt(string)] with no radix argument: leading white space is
    skipped, a sign is read, "0x" or "0X" selects radix 16, and the longest
    digit prefix is converted; NaN when there is no digit. *)
Definition parseInt (inputString : string) : number :=
  let S0 := trimStart inputString in
  let '(sign, S1) :=
    match S0 with
    | String "-"%char r => (-1, r)
    | String "+"%char r => (1, r)
    | _ => (1, S0)
    end in
  let '(R, S2) :=
    match S1 with
    | String "0"%char (String x r) =>
        if Ascii.eqb x "x"%char || Ascii.eqb x "X"%char then (16, r) else (10, S1)
    | _ => (10, S1)
    end in
  match parseDigits R S2 None with
  | None => NaN
  | Some mathInt => round64 (sign * mathInt)
  end.

(** *** Number to string *)

Definition digitChar (d : Z) : ascii := ascii_of_nat (48 + Z.to_nat d).

Fixpoint decimalDigits (fuel : nat) (n : Z) (acc : string) : string :=
  match fuel with
  | O => acc
  | S f =>
      let acc' := String (digitChar (n mod 10)) acc in
      if n <? 10 then acc' else decimalDigits f (n / 10) acc'
  end.

(** The decimal numeral of a natural number. *)
Definition decimal (n : Z) : string :=
  decimalDigits (S (Z.to_nat (Z.log2 n))) n EmptyString.

(** The decimal numeral of an integer, with a minus sign when negative. *)
Definition decimalZ (z : Z) : string :=
  if z <? 0 then String "-"%char (decimal (- z)) else decimal z.

Definition numDigits (n : Z) : Z := Z.of_nat (String.length (decimal n)).

(** Number::toString, the search for the digits: the value [s * 10^(n-k)]
    with the fewest significant digits [k] that still converts back to the
    double [a]; of two such values the one closer to [a], and on a tie the one
    with [s] even.  Candidates at each [k] are the two multiples of
    [10^(nd-k)] around [a], where [nd] is the number of digits of [a]. *)
Fixpoint shortest (fuel : nat) (k : Z) (nd : Z) (a : Z) : Z :=
  match fuel with
  | O => a
  | S f =>
      let p := 10 ^ (nd - k) in
      let lo := (a / p) * p in
      let hi := lo + p in
      let oklo := number_eqb (round64 lo) (Fin a) in
      let okhi := number_eqb (round64 hi) (Fin a) in
      if oklo && okhi then
        (if a - lo <? hi - a then lo
         else if hi - a <? a - lo then hi
         else if Z.even (a / p) then lo else hi)
      else if oklo then lo
      else if okhi then hi
      else shortest f (k + 1) nd a
  end.

Fixpoint stripTrailingZeros (s : string) : string :=
  match s with
  | EmptyString => EmptyString
  | String c s' =>
      match stripTrailingZeros s' with
      | EmptyString => if Ascii.eqb c "0"%char then EmptyString else String c EmptyString
      | t => String c t
      end
  end.

(** The text of a positive integer-valued double: positional up to 21
    digits, exponential beyond. *)
Definition positiveToString (a : Z) : string :=
  let nd := numDigits a in
  let v := shortest (Z.to_nat nd) 1 nd a in
  let n := numDigits v in
  if v <? 10 ^ 21 then decimal v
  else
    match stripTrailingZeros (decimal v) with
    | String d EmptyString => String d ("e+" +++ decimal (n - 1))
    | String d ds => String d ("." +++ ds +++ "e+" +++ decimal (n - 1))
    | EmptyString => EmptyString
    end.

(** [String(x)], as a template literal applies it to a Number. *)
Definition Number_toString (x : number) : string :=
  match x with
  | NaN => "NaN"%string
  | PosInf => "Infinity"%string
  | NegInf => "-Infinity"%string
  | Fin z =>
      if z =? 0 then "0"%string
      else if z <? 0 then String "-"%char (positiveToString (- z))
      else positiveToString z
  end.

Definition notNaN (x : number) : Prop := x <> NaN.

(** *** Array.prototype.sort *)

(** The sign the sort reads off a comparator's result; NaN counts as zero. *)
Definition SortCompare (comparefn : number -> number -> number) (x y : number) : Z :=
  match comparefn x y with
  | NaN => 0
  | NegInf => -1
  | Fin z => Z.sgn z
  | PosInf => 1
  end.

(** [x] goes after every element it compares greater than, and before the
    first one it does not: elements that compare equal keep their order. *)
Fixpoint sortInsert (comparefn : number -> number -> number) (x : number)
    (l : list number) : list number :=
  match l with
  | [] => [x]
  | y :: l' =>
      if 0 <? SortCompare comparefn x y then y :: sortInsert comparefn x l'
      else x :: l
  end.

(** [arr.sort(comparefn)]: the sort is stable, so for a consistent comparator
    its result is the one a stable insertion sort gives. *)
Definition Array_sort (comparefn : number -> number -> number)
    (arr : list number) : list number :=
  fold_right (sortInsert comparefn) [] arr.

(** *** Date *)

(** A Date object: its time value, in milliseconds since the epoch, or the
    invalid date (time value NaN). *)
Inductive Date : Type :=
| InvalidDate
| TimeValue (t : Z).

Definition msPerDay : Z := 86400000.

Definition Day (t : Z) : Z := t / msPerDay.

Definition DaysInYear (y : Z) : Z :=
  if negb (y mod 4 =? 0) then 365
  else if negb (y mod 100 =? 0) then 366
  else if negb (y mod 400 =? 0) then 365
  else 366.

(** The day number of the first day of year [y]. *)
Definition DayFromYear (y : Z) : Z :=
  365 * (y - 1970) + (y - 1969) / 4 - (y - 1901) / 100 + (y - 1601) / 400.

(** The largest year whose first day is not after day [d]: an estimate from
    the mean length of a year, moved by one where it is off. *)
Definition YearFromDay (d : Z) : Z :=
  let y0 := 1970 + (400 * d) / 146097 in
  if DayFromYear (y0 + 1) <=? d then y0 + 1
  else if DayFromYear y0 <=? d then y0
  else y0 - 1.

Definition YearFromTime (t : Z) : Z := YearFromDay (Day t).

Definition InLeapYear (t : Z) : Z :=
  if DaysInYear (YearFromTime t) =? 366 then 1 else 0.

Definition DayWithinYear (t : Z) : Z := Day t - DayFromYear (YearFromTime t).

Definition MonthFromTime (t : Z) : Z :=
  let d := DayWithinYear t in
  let leap := InLeapYear t in
  if d <? 31 then 0
  else if d <? 59 + leap then 1
  else if d <? 90 + leap then 2
  else if d <? 120 + leap then 3
  else if d <? 151 + leap then 4
  else if d <? 181 + leap then 5
  else if d <? 212 + leap then 6
  else if d <? 243 + leap then 7
  else if d <? 273 + leap then 8
  else if d <? 304 + leap then 9
  else if d <? 334 + leap then 10
  else 11.

Definition DateFromTime (t : Z) : Z :=
  let d := DayWithinYear t in
  let leap := InLeapYear t in
  match MonthFromTime t with
  | 0 => d + 1
  | 1 => d - 30
  | 2 => d - 58 - leap
  | 3 => d - 89 - leap
  | 4 => d - 119 - leap
  | 5 => d - 150 - leap
  | 6 => d - 180 - leap
  | 7 => d - 211 - leap
  | 8 => d - 242 - leap
  | 9 => d - 272 - leap
  | 10 => d - 303 - leap
  | _ => d - 333 - leap
  end.

(** [s.substr(1)] *)
Definition substr1 (s : string) : string :=
  match s with
  | EmptyString => EmptyString
  | String _ r => r
  end.

(** *** More strings *)

(** [a <= b] on strings: code unit by code unit, a proper prefix first. *)
Definition String_le (a b : string) : bool := String.leb a b.

(** [s.includes(sub)] *)
Fixpoint includes (s sub : string) : bool :=
  startsWith s sub ||
  match s with
  | EmptyString => false
  | String _ s' => includes s' sub
  end.

(** [arr.includes(x)] on strings *)
Definition Array_includes (arr : list string) (x : string) : bool :=
  existsb (String.eqb x) arr.

(** [arr.join(sep)] *)
Definition join (arr : list string) (sep : string) : string := String.concat sep arr.

(** [c.repeat(n)] for one code unit *)
Fixpoint repeat (c : ascii) (n : nat) : string :=
  match n with
  | O => EmptyString
  | S n' => String c (repeat c n')
  end.

(** [s.padEnd(n)]: spaces up to length [n]. *)
Definition padEnd (s : string) (n : nat) : string :=
  s +++ repeat " "%char (n - String.length s).

(** [s.replace(/\./g, '\\.')]: a backslash before every dot. *)
Fixpoint escapeDots (s : string) : string :=
  match s with
  | EmptyString => EmptyString
  | String c s' =>
      if Ascii.eqb c "."%char then String "\"%char (String "."%char (escapeDots s'))
      else String c (escapeDots s')
  end.

(** [s.replace(/^v/, '')] *)
Definition stripLeadingV (s : string) : string :=
  match s with
  | String "v"%char r => r
  | _ => s
  end.

(** Drop [p] from the front of [s] when it is there. *)
Fixpoint stripPrefix (p s : string) : option string :=
  match p with
  | EmptyString => Some s
  | String a p' =>
      match s with
      | EmptyString => None
      | String b s' => if Ascii.eqb a b then stripPrefix p' s' else None
      end
  end.

(** [s.replace(/^release\/v?/, '')] *)
Definition stripReleasePrefix (s : string) : string :=
  match stripPrefix "release/" s with
  | Some r => stripLeadingV r
  | None => s
  end.

End JS.

(** ** The moment library, as far as [generate] uses it

    moment is a dependency of the repository, not a part of it; what follows
    is written after the library's own code ([zeroFill] and the format
    tokens).  It gives the text of a moment in UTC mode for the templates
    made of the tokens YYYY, YY, MM and DD, which read the date through
    getUTCFullYear, getUTCMonth and getUTCDate.  The rendering of every other
    template (week and day of year, and the templates a caller makes up) is
    the parameter [formatOther]. *)
Module Moment.
Import JS.

(** [moment(date).utc()] *)
Inductive moment : Type :=
| UtcMoment (d : Date).

Definition utc (date : Date) : moment := UtcMoment date.

(** [zeroFill(number, targetLength, forceSign)] of moment's utilities: the
    zeros are the text of [Math.pow(10, n)] without its first character. *)
Definition zeroFill (number : Z) (targetLength : Z) (forceSign : bool) : string :=
  let absNumber := Number_toString (Fin (Z.abs number)) in
  let zerosToFill := targetLength - Z.of_nat (String.length absNumber) in
  let sign := 0 <=? number in
  (if sign then (if forceSign then "+" else "") else "-")
  +++ substr1 (Number_toString (round64 (10 ^ Z.max 0 zerosToFill)))
  +++ absNumber.

(** The tokens: YYYY is the year filled to 4, YY the remainder of the year
    by 100 (of the sign of the year) filled to 2, MM the month from 1 filled
    to 2, DD the day of the month filled to 2. *)
Definition tokenYYYY (t : Z) : string := zeroFill (YearFromTime t) 4 false.
Definition tokenYY (t : Z) : string := zeroFill (Z.rem (YearFromTime t) 100) 2 false.
Definition tokenMM (t : Z) : string := zeroFill (MonthFromTime t + 1) 2 false.
Definition tokenDD (t : Z) : string := zeroFill (DateFromTime t) 2 false.

Section Format.
Variable formatOther : Z -> string -> string.

(** [m.format(template)]; an invalid moment gives the locale's text for it. *)
Definition format (m : moment) (template : string) : string :=
  match m with
  | UtcMoment InvalidDate => "Invalid date"
  | UtcMoment (TimeValue t) =>
      if String.eqb template "YYYY.MM.DD"
      then tokenYYYY t +++ "." +++ tokenMM t +++ "." +++ tokenDD t
      else if String.eqb template "YY.MM.DD"
      then tokenYY t +++ "." +++ tokenMM t +++ "." +++ tokenDD t
      else if String.eqb template "YYYY.MM"
      then tokenYYYY t +++ "." +++ tokenMM t
      else if String.eqb template "YYYYMMDD"
      then tokenYYYY t +++ tokenMM t +++ tokenDD t
      else formatOther t template
  end.

End Format.
End Moment.

(** ** lib/calver.js *)
Module CalVer.
Import JS.

(** The fields the constructor sets. *)
Record CalVerGenerator : Type := {
  format : string;
  timezone : string
}.

(** [new CalVerGenerator(options)]: an absent or empty option takes the
    default. *)
Definition orDefault (x : option string) (d : string) : string :=
  match x with
  | None => d
  | Some EmptyString => d
  | Some s => s
  end.

Definition new_CalVerGenerator (options_format options_timezone : option string)
    : CalVerGenerator :=
  {| format := orDefault options_format "YYYY.MM.DD";
     timezone := orDefault options_timezone "UTC" |}.

(** [generate(date)] *)
Definition generate (formatOther : Z -> string -> string)
    (this : CalVerGenerator) (date : Date) : string :=
  let m := Moment.utc date in
  let fmt := toLowerCase (format this) in
  if String.eqb fmt "yyyy.mm.dd" then Moment.format formatOther m "YYYY.MM.DD"
  else if String.eqb fmt "yy.mm.dd" then Moment.format formatOther m "YY.MM.DD"
  else if String.eqb fmt "yyyy.mm" then Moment.format formatOther m "YYYY.MM"
  else if String.eqb fmt "yyyy.ww" then Moment.format formatOther m "YYYY.WW"
  else if String.eqb fmt "yyyymmdd" then Moment.format formatOther m "YYYYMMDD"
  else if String.eqb fmt "yyyy.ddd" then Moment.format formatOther m "YYYY.DDD"
  else Moment.format formatOther m (format this).

(** One entry of [getSupportedFormats()]. *)
Record FormatInfo : Type := {
  name : string;
  description : string;
  example : string
}.

(** [CalVerGenerator.getSupportedFormats()] *)
Definition getSupportedFormats : list FormatInfo :=
  [ {| name := "YYYY.MM.DD"; description := "Year.Month.Day (e.g., 2024.01.15)";
       example := "2024.01.15" |};
    {| name := "YY.MM.DD"; description := "Year.Month.Day (e.g., 24.01.15)";
       example := "24.01.15" |};
    {| name := "YYYY.MM"; description := "Year.Month (e.g., 2024.01)";
       example := "2024.01" |};
    {| name := "YYYY.WW"; description := "Year.Week (e.g., 2024.03)";
       example := "2024.03" |};
    {| name := "YYYYMMDD"; description := "Compact date (e.g., 20240115)";
       example := "20240115" |};
    {| name := "YYYY.DDD"; description := "Year.DayOfYear (e.g., 2024.015)";
       example := "2024.015" |} ].

(** The numeral of [n] in exactly [w] decimal digits, leading zeros
    included: what the specification calls a 4-digit year or a 2-digit
    month. *)
Fixpoint fixedDigits (w : nat) (n : Z) : string :=
  match w with
  | O => EmptyString
  | S w' => fixedDigits w' (n / 10) +++ String (digitChar (n mod 10)) EmptyString
  end.

(** *** The version disambiguator *)

(** [generateIncremental(baseVersion, existingVersions = [])] *)
Definition generateIncremental (baseVersion : string)
    (existingVersions : list string) : string :=
  let matchingVersions :=
    Array_sort (fun a b => Number_sub b a)
      (map (fun v =>
              let parts := split v "."%char in
              let lastPart := nth_error parts (List.length parts - 1) in
              LogicalOr (parseInt (ToString_elem lastPart)) (Fin 0))
         (filter (fun v => startsWith v baseVersion) existingVersions)) in
  if (List.length matchingVersions =? 0)%nat then baseVersion
  else
    let increment :=
      match nth_error matchingVersions 0 with
      | Some top => Number_add top (Fin 1)
      | None => NaN
      end in
    baseVersion +++ "." +++ Number_toString increment.

(** *** The algorithm in the words of the specification *)

(** [p] is a literal prefix of [s]: [s] is [p] followed by some rest. *)
Definition has_prefix (p s : string) : Prop := exists rest, s = p +++ rest.

(** The final component of a dotted string: what follows the last ".",
    the whole string when there is none. *)
Fixpoint finalComponent (cur : string) (s : string) : string :=
  match s with
  | EmptyString => cur
  | String c s' =>
      if Ascii.eqb c "."%char then finalComponent EmptyString s'
      else finalComponent (cur +++ String c EmptyString) s'
  end.

(** Parse as an integer, an unparsable component counting as 0. *)
Definition parseOrZero (s : string) : number :=
  match parseInt s with
  | NaN => Fin 0
  | n => n
  end.

(** The order of the Number values, NaN left out. *)
Definition Number_leb (a b : number) : bool :=
  match a, b with
  | NaN, _ | _, NaN => false
  | NegInf, _ => true
  | _, PosInf => true
  | Fin x, Fin y => x <=? y
  | _, _ => false
  end.

Definition Number_max (a b : number) : number :=
  if Number_leb a b then b else a.

Fixpoint maximum (first : number) (rest : list number) : number :=
  match rest with
  | [] => first
  | x :: rest' => maximum (Number_max first x) rest'
  end.

(** The existing versions that start with the base version, by the
    Standard Library's own prefix test. *)
Definition matching (baseVersion : string) (existingVersions : list string) : list string :=
  filter (String.prefix baseVersion) existingVersions.

(** The parsed final component of every match. *)
Definition parsedComponents (baseVersion : string) (existingVersions : list string)
    : list number :=
  map (fun v => parseOrZero (finalComponent EmptyString v))
    (matching baseVersion existingVersions).

(** resolve(baseVersion, existingVersions) as the specification words it:
    the maximum parsed component plus 1, joined to the base by "."; the base
    unchanged when nothing matches. *)
Definition resolve (baseVersion : string) (existingVersions : list string) : string :=
  match parsedComponents baseVersion existingVersions with
  | [] => baseVersion
  | n :: ns =>
      baseVersion +++ "." +++ Number_toString (Number_add (maximum n ns) (Fin 1))
  end.

(** A string that is an integer numeral: an optional minus sign, then one or
    more decimal digits. *)
Definition isDigit (c : ascii) : bool :=
  let n := nat_of_ascii c in ((48 <=? n) && (n <=? 57))%nat.

Fixpoint allDigits (s : string) : bool :=
  match s with
  | EmptyString => true
  | String c s' => isDigit c && allDigits s'
  end.

Definition isIntegerNumeral (s : string) : bool :=
  match s with
  | EmptyString => false
  | String "-"%char (String c r) => allDigits (String c r)
  | String c r => allDigits (String c r)
  end.

(** The result is the base, or the base, a "." and an integer numeral. *)
Definition base_or_integer_suffix (baseVersion result : string) : Prop :=
  result = baseVersion \/
  exists suffix, result = baseVersion +++ "." +++ suffix /\ isIntegerNumeral suffix = true.

End CalVer.

(** ** The process and its collaborators

    The program talks to git (through simple-git), to the user (through
    inquirer) and to the console.  Each call is answered by the environment
    [Env] from the state of the world [W]; a call that rejects gives an
    [Error].  A run threads the world and records what it did as a trace of
    events. *)
Module Process.
Import JS.

(** A JavaScript [Error], by its message. *)
Inductive Error : Type :=
| MkError (message : string).

Definition message (e : Error) : string :=
  match e with MkError m => m end.

(** How a computation ends: it returns, throws, or the process exits. *)
Inductive outcome (A : Type) : Type :=
| Returned (a : A)
| Thrown (e : Error)
| Exited (code : Z).
Arguments Returned {A} a.
Arguments Thrown {A} e.
Arguments Exited {A} code.

(** chalk's colours; a styled string is the colour and the text. *)
Inductive colour : Type := plain | blue | yellow | green | red | cyan | gray.

Definition styled : Type := (colour * string)%type.

Definition chalk (c : colour) (s : string) : styled := (c, s).

(** simple-git's StatusResult and a remote, as far as they are read. *)
Record StatusResult : Type := {
  current : option string;
  files : list string;
  ahead : Z;
  behind : Z
}.

Record Remote : Type := {
  remote_name : string;
  refs_fetch : string
}.

(** A compiled regular expression, by its source. *)
Inductive RegExp : Type :=
| MkRegExp (source : string).

(** The answers of the guided configuration. *)
Record Answers : Type := {
  answer_format : string;
  answer_baseBranch : string;
  answer_push : bool
}.

(** The three questions of the guided configuration: the choices of the
    format list (label and value) and the defaults. *)
Record Questions : Type := {
  format_choices : list (string * string);
  format_default : string;
  baseBranch_default : string;
  push_default : bool
}.

Inductive gitCall : Type :=
| Status
| GetRemotes
| BranchLocal
| BranchRemote
| Tags
| Checkout (branch : string)
| Pull
| CheckoutLocalBranch (branch : string)
| Push (args : list string).

Inductive event : Type :=
| EvGit (c : gitCall)
| EvConfirm (message : string) (answer : option bool)
| EvQuestions (q : Questions) (answer : option Answers)
| EvLog (args : list styled)
| EvError (args : list styled)
| EvExit (code : Z).

(** The git calls that change the repository or the working tree. *)
Definition isMutation (e : event) : bool :=
  match e with
  | EvGit (Checkout _) | EvGit Pull | EvGit (CheckoutLocalBranch _) | EvGit (Push _) => true
  | _ => false
  end.

Definition isErrorOutput (e : event) : bool :=
  match e with
  | EvError _ => true
  | _ => false
  end.

Definition isConfirm (e : event) : bool :=
  match e with
  | EvConfirm _ _ => true
  | _ => false
  end.

(** Looking and telling: the read calls of git, the guided questions and
    the lines on standard output. *)
Definition isObservation (e : event) : bool :=
  match e with
  | EvGit Status | EvGit GetRemotes | EvGit BranchLocal | EvGit BranchRemote
  | EvGit Tags => true
  | EvQuestions _ _ => true
  | EvLog _ => true
  | _ => false
  end.

Definition isExit (e : event) : bool :=
  match e with
  | EvExit _ => true
  | _ => false
  end.

Definition isPush (e : event) : bool :=
  match e with
  | EvGit (Push _) => true
  | _ => false
  end.

Definition isQuestions (e : event) : bool :=
  match e with
  | EvQuestions _ _ => true
  | _ => false
  end.

(** Neither a line on the error stream nor the end of the process. *)
Definition notFailure (e : event) : bool := negb (isErrorOutput e) && negb (isExit e).

Definition notPush (e : event) : bool := negb (isPush e).

Definition notQuestions (e : event) : bool := negb (isQuestions e).

(** Anything but a change to the repository. *)
Definition notMutation (e : event) : bool := negb (isMutation e).

(** Anything but a confirmation prompt. *)
Definition notConfirm (e : event) : bool := negb (isConfirm e).

(** Neither a change to the repository nor a confirmation prompt. *)
Definition notAsked (e : event) : bool := negb (isMutation e) && negb (isConfirm e).

(** The environment: simple-git's calls, inquirer's prompts, the clock, the
    regular-expression engine and moment's other templates. *)
Record Env (W : Type) : Type := {
  git_status : W -> (Error + StatusResult) * W;
  git_getRemotes : W -> (Error + list Remote) * W;
  git_branchLocal : W -> (Error + list string) * W;
  git_branch_r : W -> (Error + list string) * W;
  git_tags : W -> (Error + list string) * W;
  git_checkout : string -> W -> (Error + unit) * W;
  git_pull : W -> (Error + unit) * W;
  git_checkoutLocalBranch : string -> W -> (Error + unit) * W;
  git_push : list string -> W -> (Error + unit) * W;
  prompt_confirm : string -> W -> (Error + bool) * W;
  prompt_questions : Questions -> W -> (Error + Answers) * W;
  date_now : W -> Z * W;
  regexp_syntax : string -> option Error;
  regexp_match : RegExp -> string -> bool;
  moment_formatOther : Z -> string -> string
}.
Arguments git_status {W} _ _.
Arguments git_getRemotes {W} _ _.
Arguments git_branchLocal {W} _ _.
Arguments git_branch_r {W} _ _.
Arguments git_tags {W} _ _.
Arguments git_checkout {W} _ _ _.
Arguments git_pull {W} _ _.
Arguments git_checkoutLocalBranch {W} _ _ _.
Arguments git_push {W} _ _ _.
Arguments prompt_confirm {W} _ _ _.
Arguments prompt_questions {W} _ _ _.
Arguments date_now {W} _ _.
Arguments regexp_syntax {W} _ _.
Arguments regexp_match {W} _ _ _.
Arguments moment_formatOther {W} _ _ _.

Section Monad.
Context {W : Type}.

(** The state of a run: the world and the trace so far, oldest event first. *)
Definition state : Type := (W * list event)%type.

Definition trace (s : state) : list event := snd s.

Definition M (A : Type) : Type := state -> outcome A * state.

Definition ret {A} (a : A) : M A := fun s => (Returned a, s).

Definition throw {A} (e : Error) : M A := fun s => (Thrown e, s).

(** [await m] then the rest: a throw or an exit ends the sequence. *)
Definition bind {A B} (m : M A) (k : A -> M B) : M B :=
  fun s =>
    match m s with
    | (Returned a, s') => k a s'
    | (Thrown e, s') => (Thrown e, s')
    | (Exited c, s') => (Exited c, s')
    end.

(** [try { m } catch (error) { h error }] *)
Definition tryCatch {A} (m : M A) (h : Error -> M A) : M A :=
  fun s =>
    match m s with
    | (Thrown e, s') => h e s'
    | r => r
    end.

Definition emit (e : event) : M unit :=
  fun s => (Returned tt, (fst s, snd s ++ [e])).

(** A call answered by the environment.  It is recorded as [ev] whether it
    succeeds or rejects: the trace holds the calls that were made. *)
Definition perform {A} (f : W -> (Error + A) * W) (ev : Error + A -> event) : M A :=
  fun s =>
    let '(r, w') := f (fst s) in
    (match r with inl e => Thrown e | inr a => Returned a end,
     (w', snd s ++ [ev r])).

Definition console_log (args : list styled) : M unit := emit (EvLog args).

Definition console_error (args : list styled) : M unit := emit (EvError args).

(** [process.exit(code)] *)
Definition process_exit {A} (code : Z) : M A :=
  fun s => (Exited code, (fst s, snd s ++ [EvExit code])).

(** No run of [m] ends the process. *)
Definition staysOn {A} (m : M A) : Prop :=
  forall s c, fst (m s) <> Exited c.

(** Every run of [m] only adds events that pass [p]. *)
Definition emits {A} (p : event -> bool) (m : M A) : Prop :=
  forall s, exists evs,
    trace (snd (m s)) = trace s ++ evs /\ Forall (fun e => p e = true) evs.

End Monad.

Notation "x <- m ;; k" := (bind m (fun x => k))
  (at level 61, m at next level, right associativity) : js_scope.
Notation "m ;; k" := (bind m (fun _ => k))
  (at level 61, right associativity) : js_scope.

(** The exit status of the process once the command's handler has ended:
    0 when it returns, the code of [process.exit], and 1 for an error nobody
    caught. *)
Definition exitCode {A W} (r : outcome A * @state W) : Z :=
  match fst r with
  | Returned _ => 0
  | Thrown _ => 1
  | Exited c => c
  end.

End Process.

(** ** lib/git-operations.js *)
Module GitOperations.
Import JS Process.

Section Methods.
Context {W : Type}.
Variable env : Env W.

Definition git_call_status : M StatusResult :=
  perform (git_status env) (fun _ => EvGit Status).
Definition git_call_getRemotes : M (list Remote) :=
  perform (git_getRemotes env) (fun _ => EvGit GetRemotes).
Definition git_call_branchLocal : M (list string) :=
  perform (git_branchLocal env) (fun _ => EvGit BranchLocal).
Definition git_call_branch_r : M (list string) :=
  perform (git_branch_r env) (fun _ => EvGit BranchRemote).
Definition git_call_tags : M (list string) :=
  perform (git_tags env) (fun _ => EvGit Tags).
Definition git_call_checkout (b : string) : M unit :=
  perform (git_checkout env b) (fun _ => EvGit (Checkout b)).
Definition git_call_pull : M unit :=
  perform (git_pull env) (fun _ => EvGit Pull).
Definition git_call_checkoutLocalBranch (b : string) : M unit :=
  perform (git_checkoutLocalBranch env b) (fun _ => EvGit (CheckoutLocalBranch b)).
Definition git_call_push (args : list string) : M unit :=
  perform (git_push env args) (fun _ => EvGit (Push args)).

(** [isGitRepo()] *)
Definition isGitRepo : M bool :=
  tryCatch (_ <- git_call_status ;; ret true) (fun _ => ret false).

(** [getCurrentBranch()] *)
Definition getCurrentBranch : M (option string) :=
  status <- git_call_status ;; ret (current status).

(** [branchExists(branchName)] *)
Definition branchExists (branchName : string) : M bool :=
  tryCatch
    (branches <- git_call_branchLocal ;; ret (Array_includes branches branchName))
    (fun _ => ret false).

(** [remoteBranchExists(branchName, remote = 'origin')] *)
Definition remoteBranchExists (branchName : string) (remote : string) : M bool :=
  tryCatch
    (branches <- git_call_branch_r ;;
     ret (existsb (fun branch => includes branch (remote +++ "/" +++ branchName)) branches))
    (fun _ => ret false).

(** [getMatchingTags(pattern)] *)
Definition getMatchingTags (pattern : RegExp) : M (list string) :=
  tryCatch
    (tags <- git_call_tags ;; ret (filter (fun tag => regexp_match env pattern tag) tags))
    (fun _ => ret []).

(** [getMatchingBranches(pattern)] *)
Definition getMatchingBranches (pattern : RegExp) : M (list string) :=
  tryCatch
    (branches <- git_call_branchLocal ;;
     ret (filter (fun branch => regexp_match env pattern branch) branches))
    (fun _ => ret []).

(** A string or null as a condition: null and the empty string are falsy. *)
Definition truthy (x : option string) : option string :=
  match x with
  | Some EmptyString => None
  | _ => x
  end.

(** [createBranch(branchName, fromBranch = null)] *)
Definition createBranch (branchName : string) (fromBranch : option string) : M unit :=
  (match truthy fromBranch with
   | Some b => git_call_checkout b ;; git_call_pull
   | None => ret tt
   end) ;;
  git_call_checkoutLocalBranch branchName ;;
  console_log [chalk green ("✓ Created and switched to branch: " +++ branchName)].

(** [pushBranch(branchName, remote = 'origin')] *)
Definition pushBranch (branchName : string) (remote : string) : M unit :=
  git_call_push ["-u"; remote; branchName] ;;
  console_log [chalk green ("✓ Pushed branch to " +++ remote +++ "/" +++ branchName)].

(** [isClean()] *)
Definition isClean : M bool :=
  status <- git_call_status ;; ret (List.length (files status) =? 0)%nat.

(** The object [getRepoInfo()] returns. *)
Record RepoInfo : Type := {
  currentBranch : option string;
  repo_isClean : bool;
  remoteUrl : option string;
  repo_ahead : Z;
  repo_behind : Z
}.

(** [getRepoInfo()] *)
Definition getRepoInfo : M RepoInfo :=
  tryCatch
    (remotes <- git_call_getRemotes ;;
     let origin := find (fun r => String.eqb (remote_name r) "origin") remotes in
     status <- git_call_status ;;
     ret {| currentBranch := current status;
            repo_isClean := (List.length (files status) =? 0)%nat;
            remoteUrl := match origin with Some r => Some (refs_fetch r) | None => None end;
            repo_ahead := ahead status;
            repo_behind := behind status |})
    (fun error => throw (MkError ("Failed to get repository info: " +++ message error))).

End Methods.

(** The calls [createBranch] makes, in order: the base branch is switched to
    and pulled when one is given, then the new branch is created. *)
Definition createBranchSteps (branchName : string) (fromBranch : option string)
    : list event :=
  (match truthy fromBranch with
   | Some b => [EvGit (Checkout b); EvGit Pull]
   | None => []
   end)
  ++ [EvGit (CheckoutLocalBranch branchName)].

End GitOperations.

(** ** bin/calver-release.js *)
Module Release.
Import JS Process GitOperations.

(** The options of the [create] command, as commander hands them over. *)
Record Options : Type := {
  opt_format : string;
  baseBranch : string;
  push : bool;
  dryRun : bool;
  interactive : bool
}.

(** The text of a string or null in a template literal. *)
Definition showNullable (x : option string) : string :=
  match x with
  | Some s => s
  | None => "null"
  end.

Section Commands.
Context {W : Type}.
Variable env : Env W.

(** [new RegExp(source)]: a source the engine refuses throws. *)
Definition new_RegExp (source : string) : M (W := W) RegExp :=
  match regexp_syntax env source with
  | Some e => throw e
  | None => ret (MkRegExp source)
  end.

(** [new Date()] *)
Definition new_Date : M (W := W) Date :=
  fun s => let '(t, w') := date_now env (fst s) in (Returned (TimeValue t), (w', snd s)).

Definition inquirer_confirm (message : string) : M bool :=
  perform (prompt_confirm env message)
    (fun r => EvConfirm message (match r with inr b => Some b | inl _ => None end)).

Definition inquirer_questions (q : Questions) : M Answers :=
  perform (prompt_questions env q)
    (fun r => EvQuestions q (match r with inr a => Some a | inl _ => None end)).

(** [runInteractiveMode(options, git)]: the answers replace the format, the
    base branch and the push flag. *)
Definition runInteractiveMode (options : Options) : M Options :=
  let formats := CalVer.getSupportedFormats in
  answers <- inquirer_questions
    {| format_choices :=
         map (fun f => (CalVer.name f +++ " - " +++ CalVer.description f, CalVer.name f))
           formats;
       format_default := opt_format options;
       baseBranch_default := baseBranch options;
       push_default := push options || false |} ;;
  ret {| opt_format := answer_format answers;
         baseBranch := answer_baseBranch answers;
         push := answer_push answers;
         dryRun := dryRun options;
         interactive := interactive options |}.

(** What the first part of [createReleaseBranch] hands to the second. *)
Record Plan : Type := {
  config : Options;
  finalVersion : string;
  branchName : string
}.

(** [createReleaseBranch(options)], from its start to the two lines that
    print the final version and the branch name. *)
Definition planRelease (options : Options) : M Plan :=
  isRepo <- isGitRepo env ;;
  (if negb isRepo then throw (MkError "Not in a git repository") else ret tt) ;;
  repoInfo <- getRepoInfo env ;;
  console_log [chalk blue ("Repository: " +++ showNullable (currentBranch repoInfo) +++ " branch")] ;;
  (if negb (repo_isClean repoInfo)
   then console_log [chalk yellow "⚠ Working directory has uncommitted changes"]
   else ret tt) ;;
  config <- (if interactive options then runInteractiveMode options else ret options) ;;
  let calver := CalVer.new_CalVerGenerator (Some (opt_format config)) None in
  date <- new_Date ;;
  let baseVersion := CalVer.generate (moment_formatOther env) calver date in
  tagPattern <- new_RegExp ("^v?" +++ escapeDots baseVersion) ;;
  existingTags <- getMatchingTags env tagPattern ;;
  branchPattern <- new_RegExp ("release.*" +++ escapeDots baseVersion) ;;
  existingBranches <- getMatchingBranches env branchPattern ;;
  console_log [chalk blue (String "010"%char ("Generated base version: " +++ baseVersion))] ;;
  (if (0 <? List.length existingTags)%nat
   then console_log [chalk yellow ("Found existing tags: " +++ join existingTags ", ")]
   else ret tt) ;;
  (if (0 <? List.length existingBranches)%nat
   then console_log [chalk yellow ("Found existing branches: " +++ join existingBranches ", ")]
   else ret tt) ;;
  let finalVersion :=
    CalVer.generateIncremental baseVersion
      (map stripLeadingV existingTags ++ map stripReleasePrefix existingBranches) in
  let branchName := "release/v" +++ finalVersion in
  console_log [chalk green (String "010"%char ("Final version: " +++ finalVersion))] ;;
  console_log [chalk green ("Branch name: " +++ branchName)] ;;
  ret {| config := config; finalVersion := finalVersion; branchName := branchName |}.

(** [createReleaseBranch(options)], from the check of the branch to the end. *)
Definition carryOut (options : Options) (plan : Plan) : M unit :=
  let config := config plan in
  let finalVersion := finalVersion plan in
  let branchName := branchName plan in
  existsLocally <- branchExists env branchName ;;
  (if existsLocally
   then throw (MkError ("Branch " +++ branchName +++ " already exists locally"))
   else ret tt) ;;
  existsRemotely <- remoteBranchExists env branchName "origin" ;;
  (if existsRemotely
   then throw (MkError ("Branch " +++ branchName +++ " already exists on remote"))
   else ret tt) ;;
  if dryRun options then
    console_log [chalk cyan (String "010"%char "🔍 DRY RUN - No changes will be made")] ;;
    console_log [chalk cyan ("Would create branch: " +++ branchName)] ;;
    console_log [chalk cyan ("From base branch: " +++ baseBranch config)] ;;
    (if push config then console_log [chalk cyan "Would push to remote: origin"] else ret tt)
  else
    confirmed <-
      (if negb (interactive options)
       then inquirer_confirm ("Create release branch " +++ branchName +++ "?")
       else ret true) ;;
    if negb confirmed then console_log [chalk yellow "Cancelled"]
    else
      console_log [chalk blue (String "010"%char "Creating release branch...")] ;;
      createBranch env branchName (Some (baseBranch config)) ;;
      (if push config
       then console_log [chalk blue "Pushing to remote..."] ;;
            pushBranch env branchName "origin"
       else ret tt) ;;
      console_log [chalk green (String "010"%char "✨ Release branch created successfully!")] ;;
      console_log [chalk gray (String "010"%char "Next steps:")] ;;
      console_log [chalk gray "  1. Make your changes on this branch"] ;;
      console_log [chalk gray "  2. Run your QA pipeline"] ;;
      console_log [chalk gray ("  3. Create a tag: git tag v" +++ finalVersion)] ;;
      console_log [chalk gray ("  4. Push tag: git push origin v" +++ finalVersion)].

(** [createReleaseBranch(options)] *)
Definition createReleaseBranch (options : Options) : M unit :=
  plan <- planRelease options ;; carryOut options plan.

(** The handler of the [create] command. *)
Definition createAction (options : Options) : M unit :=
  tryCatch (createReleaseBranch options)
    (fun error =>
       console_error [chalk red ("Error: " +++ message error)] ;;
       process_exit 1).

(** The handler of the [formats] command. *)
Definition formatsAction : M (W := W) unit :=
  console_log [chalk blue (String "010"%char ("Supported CalVer formats:" +++ String "010"%char EmptyString))] ;;
  fold_right
    (fun f rest =>
       console_log [chalk yellow ("  " +++ padEnd (CalVer.name f) 12);
                    chalk plain (CalVer.description f)] ;;
       console_log [chalk gray ("  " +++ repeat " "%char 12 +++ " Example: "
                                +++ CalVer.example f +++ String "010"%char EmptyString)] ;;
       rest)
    (ret tt) CalVer.getSupportedFormats.

End Commands.

(** The changes a release makes to the repository, in order: switch to the
    base branch and pull it (when there is a base branch), create the release
    branch, and push it when asked to. *)
Definition releaseSteps (plan : Plan) : list event :=
  (match truthy (Some (baseBranch (config plan))) with
   | Some b => [EvGit (Checkout b); EvGit Pull]
   | None => []
   end)
  ++ [EvGit (CheckoutLocalBranch (branchName plan))]
  ++ (if push (config plan)
      then [EvGit (Push ["-u"; "origin"; branchName plan])]
      else []).

(** [l] is the beginning of [l']. *)
Definition isPrefixOf {A} (l l' : list A) : Prop := exists rest, l' = l ++ rest.

(** What a dry run prints once the checks have passed. *)
Definition dryRunReport (plan : Plan) : list event :=
  [EvLog [chalk cyan (String "010"%char "🔍 DRY RUN - No changes will be made")];
   EvLog [chalk cyan ("Would create branch: " +++ branchName plan)];
   EvLog [chalk cyan ("From base branch: " +++ baseBranch (config plan))]]
  ++ (if push (config plan)
      then [EvLog [chalk cyan "Would push to remote: origin"]]
      else []).

End Release.

(** ** A scripted environment

    A world without state that answers every call from a fixed script: the
    branches and tags that exist, whether git fails, and what the user says.
    Its regular expressions are the two shapes the command builds, read
    literally: an optional "v" then the text at the start, and "release"
    with the text somewhere after it. *)
Module Scripted.
Import JS Process.

Record Script : Type := {
  gitFails : bool;
  localBranches : list string;
  remoteBranches : list string;
  tags : list string;
  confirmAnswer : bool;
  answers : Answers;
  now : Z
}.

(** Take the backslashes out of an escaped literal. *)
Fixpoint unescape (s : string) : string :=
  match s with
  | EmptyString => EmptyString
  | String c s' => if Ascii.eqb c "\"%char then unescape s' else String c (unescape s')
  end.

(** [s] holds [a], and [b] somewhere after it. *)
Fixpoint includesThen (s a b : string) : bool :=
  match stripPrefix a s with
  | Some r => includes r b
  | None => false
  end ||
  match s with
  | EmptyString => false
  | String _ s' => includesThen s' a b
  end.

Definition scriptedMatch (re : RegExp) (s : string) : bool :=
  match re with
  | MkRegExp src =>
      match stripPrefix "^v?" src with
      | Some lit => startsWith s (unescape lit) || startsWith s ("v" +++ unescape lit)
      | None =>
          match stripPrefix "release.*" src with
          | Some lit => includesThen s "release" (unescape lit)
          | None => false
          end
      end
  end.

Definition answer {A} (fails : bool) (a : A) : unit -> (Error + A) * unit :=
  fun w => (if fails then inl (MkError "fatal: not a git repository") else inr a, w).

Definition scripted (sc : Script) : Env unit := {|
  git_status := answer (gitFails sc)
                  {| current := Some "main"; files := []; ahead := 0; behind := 0 |};
  git_getRemotes := answer (gitFails sc)
                      [{| remote_name := "origin"; refs_fetch := "git@example.org:repo.git" |}];
  git_branchLocal := answer (gitFails sc) (localBranches sc);
  git_branch_r := answer (gitFails sc) (remoteBranches sc);
  git_tags := answer (gitFails sc) (tags sc);
  git_checkout := fun _ => answer (gitFails sc) tt;
  git_pull := answer (gitFails sc) tt;
  git_checkoutLocalBranch := fun _ => answer (gitFails sc) tt;
  git_push := fun _ => answer (gitFails sc) tt;
  prompt_confirm := fun _ => answer false (confirmAnswer sc);
  prompt_questions := fun _ => answer false (answers sc);
  date_now := fun w => (now sc, w);
  regexp_syntax := fun _ => None;
  regexp_match := scriptedMatch;
  moment_formatOther := fun _ template => template
|}.

(** 15 January 2024, a clean repository on main, and a user who agrees. *)
Definition january15 : Script := {|
  gitFails := false;
  localBranches := ["main"];
  remoteBranches := ["origin/main"];
  tags := [];
  confirmAnswer := true;
  answers := {| answer_format := "YYYY.MM"; answer_baseBranch := "develop";
                answer_push := true |};
  now := 1705276800000
|}.

Definition defaults : Release.Options := {|
  Release.opt_format := "YYYY.MM.DD";
  Release.baseBranch := "main";
  Release.push := false;
  Release.dryRun := false;
  Release.interactive := false
|}.

(** The same day with the release branch already on the remote. *)
Definition branchTaken : Script := {|
  gitFails := false;
  localBranches := ["main"];
  remoteBranches := ["origin/main"; "origin/release/v2024.01.15"];
  tags := [];
  confirmAnswer := true;
  answers := answers january15;
  now := now january15
|}.

(** The same day with a user who says no. *)
Definition declining : Script := {|
  gitFails := false;
  localBranches := ["main"];
  remoteBranches := ["origin/main"];
  tags := [];
  confirmAnswer := false;
  answers := answers january15;
  now := now january15
|}.

(** Every call to git fails. *)
Definition failing : Script := {|
  gitFails := true;
  localBranches := ["main"];
  remoteBranches := ["origin/main"];
  tags := ["v2024.01.15"];
  confirmAnswer := true;
  answers := answers january15;
  now := now january15
|}.

Definition dryOptions : Release.Options := {|
  Release.opt_format := "YYYY.MM.DD";
  Release.baseBranch := "main";
  Release.push := true;
  Release.dryRun := true;
  Release.interactive := false
|}.

End Scripted.

(** * Verification *)

Import JS CalVer.

(** ** Strings *)

Lemma startsWith_prefix (s p : string) : startsWith s p = String.prefix p s.
Proof.
  revert s; induction p as [|b p IH]; intros s; destruct s as [|a s]; simpl; trivial.
  destruct (Ascii.ascii_dec b a) as [->|Hne].
  - rewrite Ascii.eqb_refl. simpl. apply IH.
  - destruct (Ascii.eqb_spec a b) as [->|_]; [congruence | reflexivity].
Qed.

Lemma startsWith_has_prefix (s p : string) : startsWith s p = true <-> has_prefix p s.
Proof.
  revert s; induction p as [|b p IH]; intros s; simpl.
  - split; [intros _; exists s; reflexivity | intros _; reflexivity].
  - destruct s as [|a s].
    + split; [discriminate | intros [r Hr]; discriminate].
    + rewrite andb_true_iff, IH. split.
      * intros [Hab [r ->]]. apply Ascii.eqb_eq in Hab. subst. exists r. reflexivity.
      * intros [r Hr]. simpl in Hr. injection Hr as -> ->. split.
        -- apply Ascii.eqb_refl.
        -- exists r. reflexivity.
Qed.

Lemma append_assoc (a b c : string) : (a +++ b) +++ c = a +++ b +++ c.
Proof. induction a; simpl; congruence. Qed.

Lemma split_nonempty (s : string) (sep : ascii) : split s sep <> [].
Proof.
  destruct s as [|c s]; simpl; [discriminate|].
  destruct (Ascii.eqb c sep); [discriminate|].
  destruct (split s sep); discriminate.
Qed.

Lemma nth_error_last {A} (l : list A) (d : A) :
  l <> [] -> nth_error l (List.length l - 1) = Some (last l d).
Proof.
  induction l as [|x l IH]; [congruence|]. intros _.
  destruct l as [|y l]; [reflexivity|].
  replace (List.length (x :: y :: l) - 1)%nat with (S (List.length (y :: l) - 1))
    by (simpl; lia).
  change (nth_error (y :: l) (List.length (y :: l) - 1) = Some (last (y :: l) d)).
  apply IH. discriminate.
Qed.

Lemma finalComponent_split (s cur : string) :
  finalComponent cur s =
  match split s "."%char with
  | [p] => cur +++ p
  | ps => last ps EmptyString
  end.
Proof.
  revert cur; induction s as [|c s IH]; intros cur; simpl.
  - induction cur; simpl; congruence.
  - destruct (Ascii.eqb c "."%char).
    + rewrite IH. pose proof (split_nonempty s "."%char) as Hne.
      destruct (split s "."%char) as [|p [|p' ps]]; [congruence| |]; reflexivity.
    + rewrite IH. pose proof (split_nonempty s "."%char) as Hne.
      destruct (split s "."%char) as [|p [|p' ps]]; [congruence| |].
      * rewrite append_assoc. reflexivity.
      * reflexivity.
Qed.

Lemma lastPart_finalComponent (v : string) :
  ToString_elem (nth_error (split v "."%char) (List.length (split v "."%char) - 1))
  = finalComponent EmptyString v.
Proof.
  rewrite (nth_error_last _ EmptyString) by apply split_nonempty.
  rewrite finalComponent_split. simpl.
  destruct (split v "."%char) as [|p [|p' ps]]; reflexivity.
Qed.

Lemma LogicalOr_parseOrZero (s : string) :
  LogicalOr (parseInt s) (Fin 0) = parseOrZero s.
Proof.
  unfold LogicalOr, parseOrZero, ToBoolean.
  destruct (parseInt s) as [| |z|]; trivial.
  destruct (Z.eqb_spec z 0) as [->|]; reflexivity.
Qed.

(** ** Numbers *)

Lemma roundMagnitude_lower (a : Z) : 2 ^ 53 <= a -> 2 ^ 53 <= roundMagnitude a.
Proof.
  intros Ha. unfold roundMagnitude.
  assert (Hpos : 0 < a) by (pose proof (Z.pow_pos_nonneg 2 53); lia).
  assert (HL : 53 <= Z.log2 a) by (apply Z.log2_le_pow2; lia).
  destruct (Z.log2_spec a Hpos) as [Hlo _].
  set (e := Z.log2 a - 52) in *.
  assert (He : 0 < 2 ^ e) by (apply Z.pow_pos_nonneg; lia).
  assert (Hsplit : 2 ^ Z.log2 a = 2 ^ 52 * 2 ^ e).
  { rewrite <- Z.pow_add_r by lia. f_equal. lia. }
  assert (Hq : 2 ^ 52 <= a / 2 ^ e).
  { apply Z.div_le_lower_bound; lia. }
  assert (Hmono : 2 ^ 53 <= 2 ^ Z.log2 a) by (apply Z.pow_le_mono_r; lia).
  set (q := a / 2 ^ e) in *.
  assert (Hq' : q <= (if a mod 2 ^ e <? 2 ^ (e - 1) then q
                      else if 2 ^ (e - 1) <? a mod 2 ^ e then q + 1
                      else if Z.even q then q else q + 1)).
  { repeat match goal with |- context [if ?b then _ else _] => destruct b end; lia. }
  nia.
Qed.

(** Rounding keeps the sign, and never reaches NaN. *)
Lemma round64_sign (z : Z) :
  match round64 z with
  | NaN => False
  | NegInf => z < 0
  | Fin m => Z.sgn m = Z.sgn z
  | PosInf => 0 < z
  end.
Proof.
  unfold round64.
  destruct (Z.ltb_spec (Z.abs z) (2 ^ 53)) as [Hs|Hb]; [reflexivity|].
  pose proof (roundMagnitude_lower _ Hb) as Hm.
  assert (H53 : 0 < 2 ^ 53) by (apply Z.pow_pos_nonneg; lia).
  destruct (Z.leb_spec (2 ^ 1024) (roundMagnitude (Z.abs z))).
  - destruct (Z.ltb_spec z 0); lia.
  - rewrite Z.sgn_mul. rewrite (Z.sgn_pos (roundMagnitude _)) by lia.
    rewrite Z.sgn_sgn. lia.
Qed.

(** Integers below 2^53 in magnitude are doubles. *)
Lemma round64_exact (z : Z) : Z.abs z < 2 ^ 53 -> round64 z = Fin z.
Proof.
  intros H. unfold round64. destruct (Z.ltb_spec (Z.abs z) (2 ^ 53)); [reflexivity | lia].
Qed.

(** A rounding that lands below 2^53 was exact. *)
Lemma round64_small (v a : Z) : Z.abs a < 2 ^ 53 -> round64 v = Fin a -> v = a.
Proof.
  intros Ha. unfold round64.
  destruct (Z.ltb_spec (Z.abs v) (2 ^ 53)) as [Hs|Hb]; [congruence|].
  pose proof (roundMagnitude_lower _ Hb) as Hm.
  destruct (Z.leb_spec (2 ^ 1024) (roundMagnitude (Z.abs v))).
  - destruct (Z.ltb_spec v 0); discriminate.
  - intros [= <-]. exfalso.
    assert (H53 : 0 < 2 ^ 53) by (apply Z.pow_pos_nonneg; lia).
    destruct (Z.sgn_spec v) as [[? Hsg]|[[? Hsg]|[? Hsg]]]; rewrite Hsg in Ha; lia.
Qed.

(** ** The comparator [(a, b) => b - a] orders numbers downwards *)

Lemma SortCompare_desc (x y : number) :
  notNaN x -> notNaN y ->
  (0 <? SortCompare (fun a b => Number_sub b a) x y) = negb (Number_leb y x).
Proof.
  unfold notNaN, SortCompare. intros Hx Hy.
  destruct x as [| |x|], y as [| |y|]; try congruence; try reflexivity.
  simpl. pose proof (round64_sign (y - x)) as Hs.
  destruct (round64 (y - x)) as [| |m|]; simpl; destruct (Z.leb_spec y x); simpl;
    try reflexivity; try lia.
Qed.

Lemma Number_max_notNaN (a b : number) : notNaN a -> notNaN b -> notNaN (Number_max a b).
Proof. unfold Number_max. destruct (Number_leb a b); trivial. Qed.

Lemma Number_max_comm (a b : number) :
  notNaN a -> notNaN b -> Number_max a b = Number_max b a.
Proof.
  unfold notNaN, Number_max. intros Ha Hb.
  destruct a as [| |x|], b as [| |y|]; try congruence; simpl; trivial.
  destruct (Z.leb_spec x y), (Z.leb_spec y x); trivial; f_equal; lia.
Qed.

Lemma Number_max_assoc (a b c : number) :
  notNaN a -> notNaN b -> notNaN c ->
  Number_max (Number_max a b) c = Number_max a (Number_max b c).
Proof.
  unfold notNaN, Number_max. intros Ha Hb Hc.
  destruct a as [| |x|], b as [| |y|], c as [| |z|]; try congruence; simpl; trivial;
    repeat match goal with
           | |- context [?u <=? ?v] => destruct (Z.leb_spec u v); simpl
           end; trivial; try lia.
Qed.

Lemma maximum_notNaN (l : list number) (a : number) :
  notNaN a -> Forall notNaN l -> notNaN (maximum a l).
Proof.
  revert a; induction l as [|x l IH]; intros a Ha Hl; simpl; trivial.
  inversion Hl; subst. apply IH; trivial. apply Number_max_notNaN; trivial.
Qed.

Lemma maximum_max (l : list number) (a b : number) :
  notNaN a -> notNaN b -> Forall notNaN l ->
  maximum (Number_max a b) l = Number_max a (maximum b l).
Proof.
  revert b; induction l as [|c l IH]; intros b Ha Hb Hl; simpl; trivial.
  inversion Hl; subst.
  rewrite Number_max_assoc by trivial.
  apply IH; trivial. apply Number_max_notNaN; trivial.
Qed.

(** After the descending sort the first element is the maximum. *)
Lemma sort_desc_head (l : list number) (x : number) :
  notNaN x -> Forall notNaN l ->
  exists t, Array_sort (fun a b => Number_sub b a) (x :: l) = maximum x l :: t.
Proof.
  revert x; induction l as [|y l IH]; intros x Hx Hl.
  - exists []. reflexivity.
  - inversion Hl as [|? ? Hy Hl']; subst.
    destruct (IH y Hy Hl') as [t Ht].
    change (Array_sort (fun a b => Number_sub b a) (x :: y :: l))
      with (sortInsert (fun a b => Number_sub b a) x
              (Array_sort (fun a b => Number_sub b a) (y :: l))).
    rewrite Ht. simpl sortInsert.
    assert (Hm : notNaN (maximum y l)) by (apply maximum_notNaN; trivial).
    rewrite SortCompare_desc by trivial.
    simpl maximum. rewrite maximum_max by trivial.
    rewrite (Number_max_comm x) by trivial.
    unfold Number_max.
    destruct (Number_leb (maximum y l) x); simpl; eexists; reflexivity.
Qed.

Lemma parseInt_notNaN_or (s : string) : notNaN (LogicalOr (parseInt s) (Fin 0)).
Proof.
  unfold notNaN, LogicalOr, ToBoolean.
  destruct (parseInt s) as [| |z|]; try discriminate.
  destruct (z =? 0); discriminate.
Qed.

Lemma parseOrZero_notNaN (s : string) : notNaN (parseOrZero s).
Proof. rewrite <- LogicalOr_parseOrZero. apply parseInt_notNaN_or. Qed.

(** The array the code sorts holds the parsed components of the matches. *)
Lemma mapped_parsedComponents (baseVersion : string) (existingVersions : list string) :
  map (fun v =>
         let parts := split v "."%char in
         let lastPart := nth_error parts (List.length parts - 1) in
         LogicalOr (parseInt (ToString_elem lastPart)) (Fin 0))
    (filter (fun v => startsWith v baseVersion) existingVersions)
  = parsedComponents baseVersion existingVersions.
Proof.
  unfold parsedComponents, matching.
  rewrite (filter_ext _ (String.prefix baseVersion))
    by (intros v; apply startsWith_prefix).
  apply map_ext. intros v. cbv zeta.
  rewrite lastPart_finalComponent. apply LogicalOr_parseOrZero.
Qed.

Lemma parsedComponents_notNaN (baseVersion : string) (existingVersions : list string) :
  Forall notNaN (parsedComponents baseVersion existingVersions).
Proof.
  unfold parsedComponents. apply Forall_forall. intros n Hn.
  apply in_map_iff in Hn. destruct Hn as [v [<- _]]. apply parseOrZero_notNaN.
Qed.

(** C1.  [generateIncremental] computes what the specification describes:
    it keeps the existing versions that start with the base version, parses
    the final dot-separated component of each as an integer (0 when it does
    not parse), takes the maximum, adds 1 and joins the result to the base
    by "."; with no match it returns the base unchanged. *)
Theorem generateIncremental_refines_resolve
    (baseVersion : string) (existingVersions : list string) :
  generateIncremental baseVersion existingVersions = resolve baseVersion existingVersions.
Proof.
  unfold generateIncremental, resolve.
  rewrite mapped_parsedComponents.
  pose proof (parsedComponents_notNaN baseVersion existingVersions) as Hall.
  destruct (parsedComponents baseVersion existingVersions) as [|n ns].
  - reflexivity.
  - inversion Hall as [|? ? Hn Hns]; subst.
    destruct (sort_desc_head ns n Hn Hns) as [t ->]. reflexivity.
Qed.

(** ** Numerals *)

Lemma number_eqb_eq (a b : number) : number_eqb a b = true -> a = b.
Proof.
  destruct a, b; simpl; try discriminate; trivial.
  intros H. apply Z.eqb_eq in H. congruence.
Qed.

Lemma shortest_sound (fuel : nat) (k nd a : Z) :
  shortest fuel k nd a = a \/ round64 (shortest fuel k nd a) = Fin a.
Proof.
  revert k; induction fuel as [|f IH]; intros k; [left; reflexivity|].
  cbn [shortest]. cbv zeta.
  destruct (number_eqb (round64 (a / 10 ^ (nd - k) * 10 ^ (nd - k))) (Fin a)) eqn:Hlo;
    destruct (number_eqb (round64 (a / 10 ^ (nd - k) * 10 ^ (nd - k) + 10 ^ (nd - k))) (Fin a)) eqn:Hhi;
    cbn [andb].
  - repeat match goal with |- context [if ?b then _ else _] => destruct b end;
      right; apply number_eqb_eq; assumption.
  - right; apply number_eqb_eq; assumption.
  - right; apply number_eqb_eq; assumption.
  - apply IH.
Qed.

Lemma positiveToString_safe (a : Z) :
  0 < a < 2 ^ 53 -> positiveToString a = decimal a.
Proof.
  intros Ha. unfold positiveToString.
  assert (Hv : shortest (Z.to_nat (numDigits a)) 1 (numDigits a) a = a).
  { destruct (shortest_sound (Z.to_nat (numDigits a)) 1 (numDigits a) a) as [H|H]; trivial.
    apply round64_small in H; trivial. lia. }
  rewrite Hv.
  assert (H21 : 2 ^ 53 < 10 ^ 21) by reflexivity.
  destruct (Z.ltb_spec a (10 ^ 21)); [reflexivity | lia].
Qed.

(** A double that is a safe integer prints as its decimal numeral. *)
Lemma Number_toString_safe (z : Z) :
  Z.abs z < 2 ^ 53 -> Number_toString (Fin z) = decimalZ z.
Proof.
  intros Hz. unfold Number_toString, decimalZ.
  destruct (Z.eqb_spec z 0) as [->|Hnz]; [reflexivity|].
  destruct (Z.ltb_spec z 0).
  - f_equal. apply positiveToString_safe. lia.
  - apply positiveToString_safe. lia.
Qed.

Lemma isDigit_digitChar (d : Z) : 0 <= d < 10 -> isDigit (digitChar d) = true.
Proof.
  intros H.
  assert (Hd : d = 0 \/ d = 1 \/ d = 2 \/ d = 3 \/ d = 4 \/ d = 5 \/ d = 6 \/ d = 7
               \/ d = 8 \/ d = 9) by lia.
  repeat (destruct Hd as [->|Hd]; [reflexivity|]). subst. reflexivity.
Qed.

Lemma allDigits_decimalDigits (fuel : nat) (n : Z) (acc : string) :
  allDigits acc = true -> allDigits (decimalDigits fuel n acc) = true.
Proof.
  revert n acc; induction fuel as [|f IH]; intros n acc Hacc; cbn [decimalDigits]; trivial.
  cbv zeta.
  assert (Hstep : allDigits (String (digitChar (n mod 10)) acc) = true).
  { cbn [allDigits]. rewrite Hacc, isDigit_digitChar; trivial. apply Z.mod_pos_bound. lia. }
  destruct (n <? 10); [exact Hstep | apply IH; exact Hstep].
Qed.

Lemma decimal_cons (n : Z) : exists c r, decimal n = String c r /\ allDigits (String c r) = true.
Proof.
  pose proof (allDigits_decimalDigits (S (Z.to_nat (Z.log2 n))) n EmptyString eq_refl) as H.
  fold (decimal n) in H.
  assert (Hne : decimal n <> EmptyString).
  { unfold decimal. simpl.
    assert (Hgen : forall f m c acc, decimalDigits f m (String c acc) <> EmptyString).
    { induction f as [|f IHf]; intros m c acc; simpl; [discriminate|].
      destruct (m <? 10); [discriminate | apply IHf]. }
    destruct (n <? 10); [discriminate | apply Hgen]. }
  destruct (decimal n) as [|c r]; [congruence|]. eauto.
Qed.

(** The numeral of an integer is an integer numeral. *)
Lemma isIntegerNumeral_decimalZ (z : Z) : isIntegerNumeral (decimalZ z) = true.
Proof.
  unfold decimalZ. destruct (z <? 0).
  - destruct (decimal_cons (- z)) as [c [r [-> H]]]. exact H.
  - destruct (decimal_cons z) as [c [r [-> H]]].
    assert (Hc : isDigit c = true) by (simpl in H; apply andb_true_iff in H; tauto).
    unfold isIntegerNumeral.
    destruct (Ascii.eqb_spec c "-"%char) as [->|Hne]; [discriminate Hc|].
    destruct c as [[] [] [] [] [] [] [] []]; try exact H; try discriminate Hc;
      congruence.
Qed.

Lemma length_append (a b : string) :
  String.length (a +++ b) = (String.length a + String.length b)%nat.
Proof. induction a; simpl; congruence. Qed.

Lemma append_inj_l (a b c : string) : a +++ b = a +++ c -> b = c.
Proof. induction a; simpl; intros H; [assumption | injection H; auto]. Qed.

Lemma suffixed_neq (base suffix : string) : base +++ "." +++ suffix <> base.
Proof.
  intros H. apply (f_equal String.length) in H.
  rewrite length_append in H. simpl in H. lia.
Qed.

Lemma matching_nil (baseVersion : string) (existingVersions : list string) :
  (forall v, In v existingVersions -> ~ has_prefix baseVersion v) ->
  matching baseVersion existingVersions = [].
Proof.
  intros H. unfold matching.
  induction existingVersions as [|v l IH]; [reflexivity|]. simpl.
  destruct (String.prefix baseVersion v) eqn:Hp.
  - exfalso. apply (H v); [left; reflexivity|].
    apply startsWith_has_prefix. rewrite startsWith_prefix. exact Hp.
  - apply IH. intros w Hw. apply H. right. exact Hw.
Qed.

Lemma matching_cons (baseVersion v : string) (existingVersions : list string) :
  In v existingVersions -> has_prefix baseVersion v ->
  matching baseVersion existingVersions <> [].
Proof.
  intros Hin Hp Hnil.
  assert (Hm : In v (matching baseVersion existingVersions)).
  { apply filter_In. split; trivial. rewrite <- startsWith_prefix.
    apply startsWith_has_prefix. exact Hp. }
  rewrite Hnil in Hm. exact Hm.
Qed.

(** The result by cases on the parsed components of the matches. *)
Lemma generateIncremental_cases (baseVersion : string) (existingVersions : list string) :
  generateIncremental baseVersion existingVersions =
  match parsedComponents baseVersion existingVersions with
  | [] => baseVersion
  | n :: ns => baseVersion +++ "." +++ Number_toString (Number_add (maximum n ns) (Fin 1))
  end.
Proof.
  unfold generateIncremental. rewrite mapped_parsedComponents.
  pose proof (parsedComponents_notNaN baseVersion existingVersions) as Hall.
  destruct (parsedComponents baseVersion existingVersions) as [|n ns]; [reflexivity|].
  inversion Hall as [|? ? Hn Hns]; subst.
  destruct (sort_desc_head ns n Hn Hns) as [t ->]. reflexivity.
Qed.

(** C2.  The specification's example: on the base "2024.01.15" and the
    existing versions "2024.01.15", "2024.01.15.3" and "2024.01.15.1" the
    code returns "2024.01.15.16", not "2024.01.15.4": the match "2024.01.15"
    has no suffix, and its final component, the day 15, is read as one. *)
Theorem generateIncremental_same_day_example :
  generateIncremental "2024.01.15" ["2024.01.15"; "2024.01.15.3"; "2024.01.15.1"]
  = "2024.01.15.16"%string.
Proof. vm_compute. reflexivity. Qed.

(** C3.  When no existing version has the base version as a literal
    prefix (the empty collection in particular), the base version comes back
    unchanged. *)
Theorem generateIncremental_no_match (baseVersion : string) (existingVersions : list string) :
  (forall v, In v existingVersions -> ~ has_prefix baseVersion v) ->
  generateIncremental baseVersion existingVersions = baseVersion.
Proof.
  intros H. rewrite generateIncremental_cases.
  unfold parsedComponents. rewrite (matching_nil _ _ H). reflexivity.
Qed.

Lemma generateIncremental_no_match_witness :
  generateIncremental "2024.01.15" ["2023.12.01"] = "2024.01.15"%string.
Proof.
  apply (generateIncremental_no_match "2024.01.15" ["2023.12.01"]).
  intros v [<-|[]] H. apply startsWith_has_prefix in H. vm_compute in H. discriminate H.
Defined.

(** C4.  Prefix matching is lexical: as soon as some existing version
    starts with the base version as a string, related or not, the result is
    the base with a "." and a number after it, and differs from the base. *)
Theorem generateIncremental_lexical_collision
    (baseVersion v : string) (existingVersions : list string) :
  In v existingVersions -> has_prefix baseVersion v ->
  generateIncremental baseVersion existingVersions <> baseVersion /\
  exists n, generateIncremental baseVersion existingVersions
            = baseVersion +++ "." +++ Number_toString n.
Proof.
  intros Hin Hp. rewrite generateIncremental_cases.
  pose proof (matching_cons _ _ _ Hin Hp) as Hne.
  unfold parsedComponents.
  destruct (matching baseVersion existingVersions) as [|m ms]; [congruence|].
  cbn [map]. split; [apply suffixed_neq | eexists; reflexivity].
Qed.

Lemma generateIncremental_lexical_collision_witness :
  generateIncremental "2024.1" ["2024.10.1"] = "2024.1.2"%string /\
  (generateIncremental "2024.1" ["2024.10.1"] <> "2024.1"%string /\
   exists n, generateIncremental "2024.1" ["2024.10.1"]
             = "2024.1" +++ "." +++ Number_toString n).
Proof.
  split; [vm_compute; reflexivity|].
  apply (generateIncremental_lexical_collision "2024.1" "2024.10.1" ["2024.10.1"]).
  - left. reflexivity.
  - exists "0.1"%string. reflexivity.
Defined.

(** C5 fails as stated: a final component of 10^21 makes the suffix
    "1e+21", which is no integer numeral. *)
Lemma generateIncremental_exponent_suffix :
  generateIncremental "1" ["1.1000000000000000000000"] = "1.1e+21"%string /\
  ~ base_or_integer_suffix "1" (generateIncremental "1" ["1.1000000000000000000000"]).
Proof.
  assert (H : generateIncremental "1" ["1.1000000000000000000000"] = "1.1e+21"%string)
    by (vm_compute; reflexivity).
  split; [exact H|]. rewrite H. intros [Heq | [suffix [Heq Hnum]]].
  - discriminate Heq.
  - change ("1.1e+21"%string) with ("1" +++ "." +++ "1e+21") in Heq.
    apply append_inj_l in Heq. apply (append_inj_l ".") in Heq. subst suffix.
    vm_compute in Hnum. discriminate Hnum.
Qed.

(** C5, amended.  The result always has the base version as a literal
    prefix.  It is the base itself, or the base, a "." and the text
    JavaScript gives the maximum parsed component plus 1; when that sum is
    below 2^53 in magnitude, the text is its decimal numeral. *)
Theorem generateIncremental_shape (baseVersion : string) (existingVersions : list string) :
  has_prefix baseVersion (generateIncremental baseVersion existingVersions) /\
  (generateIncremental baseVersion existingVersions = baseVersion \/
   exists n ns, parsedComponents baseVersion existingVersions = n :: ns /\
     generateIncremental baseVersion existingVersions
     = baseVersion +++ "." +++ Number_toString (Number_add (maximum n ns) (Fin 1))) /\
  (forall n ns m, parsedComponents baseVersion existingVersions = n :: ns ->
     maximum n ns = Fin m -> Z.abs (m + 1) < 2 ^ 53 ->
     generateIncremental baseVersion existingVersions = baseVersion +++ "." +++ decimalZ (m + 1)
     /\ isIntegerNumeral (decimalZ (m + 1)) = true).
Proof.
  rewrite generateIncremental_cases.
  destruct (parsedComponents baseVersion existingVersions) as [|n ns].
  - split; [exists EmptyString; induction baseVersion; simpl; congruence|].
    split; [left; reflexivity | discriminate].
  - split; [eexists; reflexivity|].
    split; [right; exists n, ns; split; reflexivity|].
    intros n' ns' m [= <- <-] Hmax Hsafe. rewrite Hmax.
    cbn [Number_add]. rewrite round64_exact by exact Hsafe.
    rewrite Number_toString_safe by exact Hsafe.
    split; [reflexivity | apply isIntegerNumeral_decimalZ].
Qed.

(** ** Dates *)

Lemma YearFromDay_spec (d : Z) :
  DayFromYear (YearFromDay d) <= d < DayFromYear (YearFromDay d + 1).
Proof.
  unfold YearFromDay.
  set (y0 := 1970 + (400 * d) / 146097).
  destruct (Z.leb_spec (DayFromYear (y0 + 1)) d) as [H1|H1].
  - split; [exact H1|]. unfold DayFromYear in *. subst y0.
    Z.to_euclidean_division_equations. lia.
  - destruct (Z.leb_spec (DayFromYear y0) d) as [H2|H2].
    + split; [exact H2|exact H1].
    + split; [|replace (y0 - 1 + 1) with y0 by lia; exact H2].
      unfold DayFromYear in *. subst y0.
      Z.to_euclidean_division_equations. lia.
Qed.

Lemma DayFromYear_succ (y : Z) : DayFromYear (y + 1) = DayFromYear y + DaysInYear y.
Proof.
  unfold DayFromYear, DaysInYear.
  destruct (Z.eqb_spec (y mod 4) 0); cbn [negb];
    [destruct (Z.eqb_spec (y mod 100) 0); cbn [negb];
       [destruct (Z.eqb_spec (y mod 400) 0); cbn [negb]|]|];
    Z.to_euclidean_division_equations; lia.
Qed.

Lemma DaysInYear_cases (y : Z) : DaysInYear y = 365 \/ DaysInYear y = 366.
Proof.
  unfold DaysInYear.
  repeat match goal with |- context [if ?b then _ else _] => destruct b end; auto.
Qed.

Lemma DayWithinYear_bounds (t : Z) : 0 <= DayWithinYear t < 365 + InLeapYear t.
Proof.
  unfold DayWithinYear, InLeapYear, YearFromTime.
  pose proof (YearFromDay_spec (Day t)) as H.
  rewrite DayFromYear_succ in H.
  destruct (DaysInYear_cases (YearFromDay (Day t))) as [E|E]; rewrite E in *; simpl; lia.
Qed.

Lemma MonthFromTime_bounds (t : Z) : 0 <= MonthFromTime t <= 11.
Proof.
  unfold MonthFromTime.
  repeat match goal with |- context [if ?b then _ else _] => destruct b end; lia.
Qed.

Lemma InLeapYear_cases (t : Z) : InLeapYear t = 0 \/ InLeapYear t = 1.
Proof. unfold InLeapYear. destruct (_ =? _); auto. Qed.

Lemma DateFromTime_bounds (t : Z) : 1 <= DateFromTime t <= 31.
Proof.
  pose proof (DayWithinYear_bounds t) as Hd.
  pose proof (InLeapYear_cases t) as Hl.
  unfold DateFromTime, MonthFromTime.
  set (d := DayWithinYear t) in *. set (leap := InLeapYear t) in *.
  repeat match goal with
         | |- context [if ?u <? ?v then _ else _] => destruct (Z.ltb_spec u v)
         end; lia.
Qed.

Lemma length_fixedDigits (w : nat) (n : Z) : String.length (fixedDigits w n) = w.
Proof.
  revert n; induction w as [|w IH]; intros n; [reflexivity|].
  cbn [fixedDigits]. rewrite length_append, IH. simpl. lia.
Qed.

(** Filling with zeros gives the fixed-width numeral, checked on every value
    of the width. *)
Lemma zeroFill_fixedDigits_below (w : nat) (bound : Z) :
  forallb (fun k => String.eqb (Moment.zeroFill (Z.of_nat k) (Z.of_nat w) false)
                               (fixedDigits w (Z.of_nat k)))
          (seq 0 (Z.to_nat bound)) = true ->
  forall n, 0 <= n < bound ->
  Moment.zeroFill n (Z.of_nat w) false = fixedDigits w n.
Proof.
  intros Hall n Hn. rewrite forallb_forall in Hall.
  specialize (Hall (Z.to_nat n)).
  rewrite Z2Nat.id in Hall by lia.
  apply String.eqb_eq. apply Hall. apply in_seq. lia.
Qed.

Lemma zeroFill_4 (n : Z) : 0 <= n <= 9999 -> Moment.zeroFill n 4 false = fixedDigits 4 n.
Proof.
  intros Hn. apply (zeroFill_fixedDigits_below 4 10000); [vm_compute; reflexivity | lia].
Qed.

Lemma zeroFill_2 (n : Z) : 0 <= n <= 99 -> Moment.zeroFill n 2 false = fixedDigits 2 n.
Proof.
  intros Hn. apply (zeroFill_fixedDigits_below 2 100); [vm_compute; reflexivity | lia].
Qed.

(** C6 fails as stated: the first instant of the year 10000 renders in
    nine characters. *)
Lemma generate_compact_year_10000 :
  generate (fun _ _ => EmptyString) (new_CalVerGenerator (Some "YYYYMMDD") None)
    (TimeValue 253402300800000) = "100000101" /\
  String.length (generate (fun _ _ => EmptyString)
                   (new_CalVerGenerator (Some "YYYYMMDD") None)
                   (TimeValue 253402300800000)) <> 8%nat.
Proof. split; [vm_compute; reflexivity | vm_compute; discriminate]. Qed.

(** C6, amended.  For every valid date whose UTC year is between 0 and
    9999, [generate] under the format "YYYYMMDD" (in any letter case) gives
    the 4-digit UTC year, the 2-digit UTC month and the 2-digit UTC day, 8
    characters in all. *)
Theorem generate_compact (formatOther : Z -> string -> string)
    (this : CalVerGenerator) (t : Z) :
  toLowerCase (format this) = "yyyymmdd" ->
  0 <= YearFromTime t <= 9999 ->
  generate formatOther this (TimeValue t)
  = fixedDigits 4 (YearFromTime t) +++ fixedDigits 2 (MonthFromTime t + 1)
    +++ fixedDigits 2 (DateFromTime t)
  /\ String.length (generate formatOther this (TimeValue t)) = 8%nat.
Proof.
  intros Hfmt Hy.
  assert (Hgen : generate formatOther this (TimeValue t)
                 = Moment.tokenYYYY t +++ Moment.tokenMM t +++ Moment.tokenDD t).
  { unfold generate. rewrite Hfmt. reflexivity. }
  rewrite Hgen. unfold Moment.tokenYYYY, Moment.tokenMM, Moment.tokenDD.
  pose proof (MonthFromTime_bounds t). pose proof (DateFromTime_bounds t).
  rewrite zeroFill_4 by lia. rewrite !zeroFill_2 by lia.
  split; [reflexivity|].
  rewrite !length_append, !length_fixedDigits. reflexivity.
Qed.

Lemma generate_compact_witness :
  generate (fun _ _ => EmptyString) (new_CalVerGenerator (Some "YYYYMMDD") None)
    (TimeValue 1705276800000)
  = fixedDigits 4 (YearFromTime 1705276800000)
    +++ fixedDigits 2 (MonthFromTime 1705276800000 + 1)
    +++ fixedDigits 2 (DateFromTime 1705276800000)
  /\ String.length (generate (fun _ _ => EmptyString)
                      (new_CalVerGenerator (Some "YYYYMMDD") None)
                      (TimeValue 1705276800000)) = 8%nat.
Proof.
  apply (generate_compact (fun _ _ => EmptyString)
           (new_CalVerGenerator (Some "YYYYMMDD") None) 1705276800000).
  - reflexivity.
  - vm_compute. split; discriminate.
Defined.

Import Process GitOperations Release.

(** ** Runs and their traces *)

Section Emits.
Context {W : Type}.
Variable p : event -> bool.

Lemma emits_ret {A} (a : A) : emits (W := W) p (ret a).
Proof. intros s. exists []. rewrite app_nil_r. split; [reflexivity | constructor]. Qed.

Lemma emits_throw {A} (e : Error) : emits (W := W) p (throw (A := A) e).
Proof. intros s. exists []. rewrite app_nil_r. split; [reflexivity | constructor]. Qed.

Lemma emits_bind {A B} (m : M (W := W) A) (k : A -> M B) :
  emits p m -> (forall a, emits p (k a)) -> emits p (bind m k).
Proof.
  intros Hm Hk s. unfold bind.
  destruct (Hm s) as [evs [Ht Hp]].
  destruct (m s) as [[a|e|c] s1]; simpl in Ht.
  - destruct (Hk a s1) as [evs' [Ht' Hp']].
    exists (evs ++ evs'). rewrite Ht', Ht, app_assoc.
    split; [reflexivity | apply Forall_app; split; assumption].
  - exists evs. split; assumption.
  - exists evs. split; assumption.
Qed.

Lemma emits_tryCatch {A} (m : M (W := W) A) (h : Error -> M A) :
  emits p m -> (forall e, emits p (h e)) -> emits p (tryCatch m h).
Proof.
  intros Hm Hh s. unfold tryCatch.
  destruct (Hm s) as [evs [Ht Hp]].
  destruct (m s) as [[a|e|c] s1]; simpl in Ht.
  - exists evs. split; assumption.
  - destruct (Hh e s1) as [evs' [Ht' Hp']].
    exists (evs ++ evs'). rewrite Ht', Ht, app_assoc.
    split; [reflexivity | apply Forall_app; split; assumption].
  - exists evs. split; assumption.
Qed.

Lemma emits_emit (e : event) : p e = true -> emits (W := W) p (emit e).
Proof. intros He s. exists [e]. split; [reflexivity | repeat constructor; exact He]. Qed.

Lemma emits_perform {A} (f : W -> (Error + A) * W) (ev : Error + A -> event) :
  (forall r, p (ev r) = true) -> emits p (perform f ev).
Proof.
  intros He s. unfold perform. destruct (f (fst s)) as [r w'].
  exists [ev r]. split; [reflexivity | repeat constructor; apply He].
Qed.

Lemma emits_exit {A} (code : Z) :
  p (EvExit code) = true -> emits (W := W) p (process_exit (A := A) code).
Proof. intros He s. exists [EvExit code]. split; [reflexivity | repeat constructor; exact He]. Qed.

Lemma emits_if {A} (b : bool) (m1 m2 : M (W := W) A) :
  emits p m1 -> emits p m2 -> emits p (if b then m1 else m2).
Proof. destruct b; trivial. Qed.

End Emits.

(** What a run leaves in its trace, from an empty one. *)
Lemma emits_from_nil {W A} (p : event -> bool) (m : M (W := W) A) (w : W) :
  emits p m -> Forall (fun e => p e = true) (trace (snd (m (w, [])))).
Proof. intros H. destruct (H (w, [])) as [evs [-> Hp]]. exact Hp. Qed.

Lemma emits_run {W A} (p : event -> bool) (m : M (W := W) A) (s : state) r s' :
  emits p m -> m s = (r, s') ->
  exists evs, trace s' = trace s ++ evs /\ Forall (fun e => p e = true) evs.
Proof. intros H E. destruct (H s) as [evs Hevs]. rewrite E in Hevs. exists evs. exact Hevs. Qed.

(** Solves [emits p m] for a program built from the combinators, given that
    the events it names pass [p]. *)
Ltac emits_step :=
  first
    [ apply emits_ret
    | apply emits_throw
    | apply emits_bind; [|intros ?]
    | apply emits_tryCatch; [|intros ?]
    | apply emits_emit; reflexivity
    | apply emits_perform; intros ?; reflexivity
    | apply emits_exit; reflexivity
    | apply emits_if
    | match goal with
      | |- emits _ (match ?x with _ => _ end) => destruct x
      end ].

Ltac emits_tac := repeat emits_step.

(** ** The adapter's queries, run *)

Section AdapterRuns.
Context {W : Type}.
Variable env : Env W.

Lemma isGitRepo_run (s : state) :
  isGitRepo env s =
  (Returned (match fst (git_status env (fst s)) with inr _ => true | inl _ => false end),
   (snd (git_status env (fst s)), trace s ++ [EvGit Status])).
Proof.
  unfold isGitRepo, tryCatch, bind, git_call_status, perform, ret, trace.
  destruct (git_status env (fst s)) as [[e|st] w']; reflexivity.
Qed.

Lemma branchExists_run (branchName : string) (s : state) :
  branchExists env branchName s =
  (Returned (match fst (git_branchLocal env (fst s)) with
             | inr branches => Array_includes branches branchName
             | inl _ => false
             end),
   (snd (git_branchLocal env (fst s)), trace s ++ [EvGit BranchLocal])).
Proof.
  unfold branchExists, tryCatch, bind, git_call_branchLocal, perform, ret, trace.
  destruct (git_branchLocal env (fst s)) as [[e|l] w']; reflexivity.
Qed.

Lemma remoteBranchExists_run (branchName remote : string) (s : state) :
  remoteBranchExists env branchName remote s =
  (Returned (match fst (git_branch_r env (fst s)) with
             | inr branches =>
                 existsb (fun branch => includes branch (remote +++ "/" +++ branchName))
                   branches
             | inl _ => false
             end),
   (snd (git_branch_r env (fst s)), trace s ++ [EvGit BranchRemote])).
Proof.
  unfold remoteBranchExists, tryCatch, bind, git_call_branch_r, perform, ret, trace.
  destruct (git_branch_r env (fst s)) as [[e|l] w']; reflexivity.
Qed.

Lemma getMatchingTags_run (pattern : RegExp) (s : state) :
  getMatchingTags env pattern s =
  (Returned (match fst (git_tags env (fst s)) with
             | inr tags => filter (fun tag => regexp_match env pattern tag) tags
             | inl _ => []
             end),
   (snd (git_tags env (fst s)), trace s ++ [EvGit Tags])).
Proof.
  unfold getMatchingTags, tryCatch, bind, git_call_tags, perform, ret, trace.
  destruct (git_tags env (fst s)) as [[e|l] w']; reflexivity.
Qed.

Lemma getMatchingBranches_run (pattern : RegExp) (s : state) :
  getMatchingBranches env pattern s =
  (Returned (match fst (git_branchLocal env (fst s)) with
             | inr branches => filter (fun branch => regexp_match env pattern branch) branches
             | inl _ => []
             end),
   (snd (git_branchLocal env (fst s)), trace s ++ [EvGit BranchLocal])).
Proof.
  unfold getMatchingBranches, tryCatch, bind, git_call_branchLocal, perform, ret, trace.
  destruct (git_branchLocal env (fst s)) as [[e|l] w']; reflexivity.
Qed.

(** C10.  The queries do not fail when git does: for every pattern and
    name, a failing tags call makes [getMatchingTags] return the empty list,
    a failing local branch call makes [getMatchingBranches] return the empty
    list and [branchExists] return false, and a failing remote branch call
    makes [remoteBranchExists] return false. *)
Theorem queries_degrade_on_failure (pattern : RegExp) (branchName remote : string)
    (s : state) :
  (forall e w', git_tags env (fst s) = (inl e, w') ->
     getMatchingTags env pattern s = (Returned [], (w', trace s ++ [EvGit Tags]))) /\
  (forall e w', git_branchLocal env (fst s) = (inl e, w') ->
     getMatchingBranches env pattern s = (Returned [], (w', trace s ++ [EvGit BranchLocal]))
     /\ branchExists env branchName s
        = (Returned false, (w', trace s ++ [EvGit BranchLocal]))) /\
  (forall e w', git_branch_r env (fst s) = (inl e, w') ->
     remoteBranchExists env branchName remote s
     = (Returned false, (w', trace s ++ [EvGit BranchRemote]))).
Proof.
  split; [|split]; intros e w' H.
  - rewrite getMatchingTags_run, H. reflexivity.
  - split.
    + rewrite getMatchingBranches_run, H. reflexivity.
    + rewrite branchExists_run, H. reflexivity.
  - rewrite remoteBranchExists_run, H. reflexivity.
Qed.

End AdapterRuns.

Section ReleaseRuns.
Context {W : Type}.
Variable env : Env W.

Lemma emits_new_Date (p : event -> bool) : emits p (new_Date env).
Proof.
  intros s. unfold new_Date. destruct (date_now env (fst s)) as [t w'].
  exists []. rewrite app_nil_r. split; [reflexivity | constructor].
Qed.

(** Planning only looks and tells. *)
Lemma planRelease_observes (options : Options) :
  emits isObservation (planRelease env options).
Proof.
  unfold planRelease, isGitRepo, getRepoInfo, runInteractiveMode, inquirer_questions,
    getMatchingTags, getMatchingBranches, new_RegExp, console_log,
    git_call_status, git_call_getRemotes, git_call_tags, git_call_branchLocal.
  repeat first [ apply emits_new_Date | emits_step | progress cbv zeta ].
Qed.

Lemma observation_notAsked (e : event) : isObservation e = true -> notAsked e = true.
Proof.
  destruct e as [[]| | | | |]; cbv; intros H; first [reflexivity | discriminate H].
Qed.

Lemma notAsked_notMutation (e : event) : notAsked e = true -> isMutation e = false.
Proof. unfold notAsked. destruct (isMutation e); simpl; congruence. Qed.

Lemma notAsked_notConfirm (e : event) : notAsked e = true -> isConfirm e = false.
Proof. unfold notAsked. destruct (isMutation e), (isConfirm e); simpl; congruence. Qed.

Lemma observation_notMutation (e : event) : isObservation e = true -> isMutation e = false.
Proof. intros H. apply notAsked_notMutation, observation_notAsked, H. Qed.

Lemma observation_notError (e : event) : isObservation e = true -> isErrorOutput e = false.
Proof.
  destruct e as [[]| | | | |]; cbv; intros H; first [reflexivity | discriminate H].
Qed.

(** The handler of [create] turns a throw into a line on the error stream
    and exit code 1, and passes everything else on. *)
Lemma createAction_run (options : Options) (s : state) :
  createAction env options s =
  match createReleaseBranch env options s with
  | (Thrown e, s') =>
      (Exited 1, (fst s', trace s' ++ [EvError [chalk red ("Error: " +++ message e)];
                                       EvExit 1]))
  | r => r
  end.
Proof.
  unfold createAction, tryCatch.
  destruct (createReleaseBranch env options s) as [[u|e|c] s']; try reflexivity.
  unfold bind, console_error, emit, process_exit, trace. simpl.
  rewrite <- app_assoc. reflexivity.
Qed.

Lemma createReleaseBranch_run (options : Options) (s : state) :
  createReleaseBranch env options s =
  match planRelease env options s with
  | (Returned plan, s1) => carryOut env options plan s1
  | (Thrown e, s1) => (Thrown e, s1)
  | (Exited c, s1) => (Exited c, s1)
  end.
Proof. reflexivity. Qed.

End ReleaseRuns.

Ltac fst_returned H :=
  match type of H with
  | fst (Returned ?x, _) = Returned ?r =>
      let b := fresh "b" in
      set (b := x) in *; change (Returned b = Returned r) in H;
      injection H as H; subst b; rewrite H
  end.

Section Create.
Context {W : Type}.
Variable env : Env W.

(** The two checks of the branch name, run: a throw when the branch is there,
    the rest of the function otherwise. *)
Lemma carryOut_exists_locally (options : Options) (plan : Plan) (s : state) :
  fst (branchExists env (branchName plan) s) = Returned true ->
  carryOut env options plan s =
  (Thrown (MkError ("Branch " +++ branchName plan +++ " already exists locally")),
   (snd (git_branchLocal env (fst s)), trace s ++ [EvGit BranchLocal])).
Proof.
  intros H. unfold carryOut. cbv zeta. unfold bind at 1.
  rewrite branchExists_run in *. fst_returned H.
  reflexivity.
Qed.

Lemma carryOut_exists_remotely (options : Options) (plan : Plan) (s : state) :
  fst (branchExists env (branchName plan) s) = Returned false ->
  fst (remoteBranchExists env (branchName plan) "origin"
         (snd (branchExists env (branchName plan) s))) = Returned true ->
  carryOut env options plan s =
  (Thrown (MkError ("Branch " +++ branchName plan +++ " already exists on remote")),
   (snd (git_branch_r env (snd (git_branchLocal env (fst s)))),
    trace s ++ [EvGit BranchLocal; EvGit BranchRemote])).
Proof.
  intros H1 H2. unfold carryOut. cbv zeta. unfold bind at 1.
  rewrite branchExists_run in *. fst_returned H1.
  unfold bind at 1. unfold ret at 1. unfold bind at 1.
  change (snd (?a, ?b)) with b in H2.
  rewrite remoteBranchExists_run in *. fst_returned H2.
  cbn [fst snd trace]. unfold bind at 1. unfold throw at 1.
  rewrite <- app_assoc. reflexivity.
Qed.

(** C7.  When the branch name the plan computed already exists locally,
    or does not but exists on the remote, the [create] handler ends with
    exit code 1; all it did on the way was look (no checkout, pull, branch
    creation or push), and the last things in the trace are the message on
    the error stream and the exit. *)
Theorem create_fails_when_branch_exists (options : Options) (s0 s1 : state) (plan : Plan) :
  planRelease env options s0 = (Returned plan, s1) ->
  fst (branchExists env (branchName plan) s1) = Returned true \/
  (fst (branchExists env (branchName plan) s1) = Returned false /\
   fst (remoteBranchExists env (branchName plan) "origin"
          (snd (branchExists env (branchName plan) s1))) = Returned true) ->
  exists place queries,
    (place = "locally" \/ place = "on remote") /\
    fst (createAction env options s0) = Exited 1 /\
    exitCode (createAction env options s0) = 1 /\
    trace (snd (createAction env options s0))
    = trace s0 ++ queries
      ++ [EvError [chalk red ("Error: Branch " +++ branchName plan
                              +++ " already exists " +++ place)];
          EvExit 1] /\
    Forall (fun e => isMutation e = false) queries.
Proof.
  intros Hplan Hexists.
  destruct (emits_run _ _ _ _ _ (planRelease_observes env options) Hplan)
    as [evs [Htr Hobs]].
  assert (Hquiet : Forall (fun e => isMutation e = false) evs).
  { eapply Forall_impl; [|exact Hobs]. intros e. apply observation_notMutation. }
  rewrite createAction_run, createReleaseBranch_run, Hplan.
  destruct Hexists as [Hloc | [Hloc Hrem]].
  - rewrite (carryOut_exists_locally _ _ _ Hloc).
    exists "locally", (evs ++ [EvGit BranchLocal]).
    split; [left; reflexivity|]. split; [reflexivity|]. split; [reflexivity|].
    split.
    + cbn [snd fst trace message]. rewrite Htr. rewrite <- !app_assoc. reflexivity.
    + apply Forall_app. split; [exact Hquiet | repeat constructor].
  - rewrite (carryOut_exists_remotely _ _ _ Hloc Hrem).
    exists "on remote", (evs ++ [EvGit BranchLocal; EvGit BranchRemote]).
    split; [right; reflexivity|]. split; [reflexivity|]. split; [reflexivity|].
    split.
    + cbn [snd fst trace message]. rewrite Htr. rewrite <- !app_assoc. reflexivity.
    + apply Forall_app. split; [exact Hquiet | repeat constructor].
Qed.

End Create.

Section DryRun.
Context {W : Type}.
Variable env : Env W.

Lemma carryOut_dry_run (options : Options) (plan : Plan) (s s' : state)
    (r : outcome unit) :
  dryRun options = true ->
  carryOut env options plan s = (r, s') ->
  (exists e queries,
     r = Thrown e /\ trace s' = trace s ++ queries /\
     Forall (fun ev => isObservation ev = true) queries) \/
  (r = Returned tt /\
   trace s' = trace s ++ [EvGit BranchLocal; EvGit BranchRemote] ++ dryRunReport plan).
Proof.
  intros Hdry H. unfold carryOut in H. cbv zeta in H. rewrite Hdry in H.
  unfold bind at 1 in H. rewrite branchExists_run in H.
  destruct (match fst (git_branchLocal env (fst s)) with
            | inr branches => Array_includes branches (branchName plan)
            | inl _ => false
            end).
  { injection H as <- <-. left. do 2 eexists. split; [reflexivity|].
    split; [reflexivity|]. repeat constructor. }
  unfold bind at 1 in H. unfold ret at 1 in H. unfold bind at 1 in H.
  rewrite remoteBranchExists_run in H.
  match type of H with
  | context [if ?b then throw _ else ret tt] => destruct b
  end.
  { injection H as <- <-. left. do 2 eexists. split; [reflexivity|]. split.
    - cbn [trace snd]. rewrite <- app_assoc. reflexivity.
    - repeat constructor. }
  right. unfold dryRunReport.
  destruct (push (config plan)); injection H as <- <-; (split; [reflexivity|]);
    cbn [trace snd fst]; rewrite <- !app_assoc; reflexivity.
Qed.

(** C8.  A dry run never changes anything, whatever the push flag: no
    checkout, pull, branch creation or push is in its trace.  When it is not
    stopped by an error it ends with exit code 0, and after the plan and the
    two checks of the branch name its trace is the report: the branch that
    would be created and the base branch it would start from. *)
Theorem create_dry_run (options : Options) (w : W) :
  dryRun options = true ->
  Forall (fun e => isMutation e = false)
    (trace (snd (createAction env options (w, [])))) /\
  (forall u, fst (createAction env options (w, [])) = Returned u ->
     exitCode (createAction env options (w, [])) = 0 /\
     exists plan s1,
       planRelease env options (w, []) = (Returned plan, s1) /\
       trace (snd (createAction env options (w, [])))
       = trace s1 ++ [EvGit BranchLocal; EvGit BranchRemote] ++ dryRunReport plan).
Proof.
  intros Hdry.
  rewrite createAction_run, createReleaseBranch_run.
  destruct (planRelease env options (w, [])) as [[plan|e|c] s1] eqn:Hplan;
    destruct (emits_run _ _ _ _ _ (planRelease_observes env options) Hplan)
      as [evs [Htr Hobs]];
    assert (Hquiet : Forall (fun e => isMutation e = false) evs)
      by (eapply Forall_impl; [|exact Hobs]; intros ?; apply observation_notMutation);
    unfold trace in *; cbn [snd app] in Htr.
  - destruct (carryOut env options plan s1) as [r s'] eqn:Hcarry.
    destruct (carryOut_dry_run _ _ _ _ _ Hdry Hcarry)
      as [[e [queries [-> [Hs' Hq]]]] | [-> Hs']]; unfold trace in *.
    + split; [|intros u Hu; discriminate Hu].
      cbn [snd]. rewrite Hs', Htr.
      rewrite !Forall_app. repeat split; trivial; [|repeat constructor].
      eapply Forall_impl; [|exact Hq]. intros ?; apply observation_notMutation.
    + split.
      * cbn [snd]. rewrite Hs', Htr.
        rewrite !Forall_app. repeat split; trivial; [repeat constructor|].
        unfold dryRunReport. destruct (push (config plan)); repeat constructor.
      * intros u _. split; [reflexivity|]. exists plan, s1. split; [reflexivity|].
        exact Hs'.
  - split; [|intros u Hu; discriminate Hu].
    cbn [snd]. rewrite Htr.
    rewrite !Forall_app. repeat split; trivial; repeat constructor.
  - split; [|intros u Hu; discriminate Hu].
    cbn [snd]. rewrite Htr. exact Hquiet.
Qed.

End DryRun.

(** Where an element of [pre ++ c :: post] can sit. *)
Lemma app_cons_split {A} (pre post pre' post' : list A) (c e : A) :
  pre ++ c :: post = pre' ++ e :: post' ->
  In e pre \/ (e = c /\ pre' = pre) \/ (In e post /\ exists mid, pre' = pre ++ c :: mid).
Proof.
  revert pre'; induction pre as [|x pre IH]; intros pre' H.
  - destruct pre' as [|y pre'].
    + injection H as <- _. right. left. split; reflexivity.
    + injection H as <- ->. right. right. split.
      * apply in_or_app. right. left. reflexivity.
      * exists pre'. reflexivity.
  - destruct pre' as [|y pre'].
    + injection H as <- _. left. left. reflexivity.
    + injection H as <- H. destruct (IH _ H) as [Hin | [[-> ->] | [Hin [mid ->]]]].
      * left. right. exact Hin.
      * right. left. split; reflexivity.
      * right. right. split; [exact Hin | exists mid; reflexivity].
Qed.

Section ConfirmPath.
Context {W : Type}.
Variable env : Env W.

(** Creating and pushing never asks anything. *)
Lemma createBranch_notConfirm (branchName : string) (fromBranch : option string) :
  emits notConfirm (createBranch env branchName fromBranch).
Proof.
  unfold createBranch, git_call_checkout, git_call_pull, git_call_checkoutLocalBranch,
    console_log.
  emits_tac.
Qed.

Lemma pushBranch_notConfirm (branchName remote : string) :
  emits notConfirm (pushBranch env branchName remote).
Proof. unfold pushBranch, git_call_push, console_log. emits_tac. Qed.

(** The second part of [createReleaseBranch] when it has to ask: the checks
    only look; then comes the question, and what follows depends on the
    answer. *)
Lemma carryOut_confirm (options : Options) (plan : Plan) (s s' : state)
    (r : outcome unit) :
  interactive options = false -> dryRun options = false ->
  carryOut env options plan s = (r, s') ->
  (exists e queries,
     r = Thrown e /\ trace s' = trace s ++ queries /\
     Forall (fun ev => isObservation ev = true) queries) \/
  (exists queries msg,
     Forall (fun ev => isObservation ev = true) queries /\
     ((exists e, r = Thrown e /\ trace s' = trace s ++ queries ++ [EvConfirm msg None]) \/
      (r = Returned tt /\
       trace s' = trace s ++ queries
                  ++ [EvConfirm msg (Some false); EvLog [chalk yellow "Cancelled"]]) \/
      (exists post,
         trace s' = trace s ++ queries ++ EvConfirm msg (Some true) :: post /\
         Forall (fun ev => notConfirm ev = true) post))).
Proof.
  intros Hint Hdry H. unfold carryOut in H. cbv zeta in H. rewrite Hdry, Hint in H.
  cbn [negb] in H.
  unfold bind at 1 in H. rewrite branchExists_run in H.
  destruct (match fst (git_branchLocal env (fst s)) with
            | inr branches => Array_includes branches (branchName plan)
            | inl _ => false
            end).
  { injection H as <- <-. left. do 2 eexists. split; [reflexivity|].
    split; [reflexivity|]. repeat constructor. }
  unfold bind at 1 in H. unfold ret at 1 in H. unfold bind at 1 in H.
  rewrite remoteBranchExists_run in H.
  match type of H with
  | context [if ?b then throw _ else ret tt] => destruct b
  end.
  { injection H as <- <-. left. do 2 eexists. split; [reflexivity|]. split.
    - cbn [trace snd]. rewrite <- app_assoc. reflexivity.
    - repeat constructor. }
  right. exists [EvGit BranchLocal; EvGit BranchRemote].
  exists ("Create release branch " +++ branchName plan +++ "?").
  split; [repeat constructor|].
  unfold bind at 1 in H. unfold ret at 1 in H. unfold bind at 1 in H.
  unfold inquirer_confirm at 1 in H. unfold perform at 1 in H.
  cbn [fst snd] in H.
  match type of H with
  | context [prompt_confirm env ?m ?w0] => destruct (prompt_confirm env m w0) as [[e|[|]] w4]
  end.
  - left. injection H as <- <-. exists e. split; [reflexivity|].
    cbn [trace snd]. rewrite <- !app_assoc. reflexivity.
  - right. right. cbn [negb] in H.
    eapply emits_run in H.
    + destruct H as [post [Hpost Hnc]]. exists post. split; [|exact Hnc].
      rewrite Hpost. cbn [trace snd]. rewrite <- !app_assoc. reflexivity.
    + pose proof createBranch_notConfirm. pose proof pushBranch_notConfirm.
      unfold console_log. emits_tac; auto.
  - right. left. cbn [negb] in H. unfold console_log, emit in H.
    injection H as <- <-. split; [reflexivity|].
    cbn [trace snd fst]. rewrite <- !app_assoc. reflexivity.
Qed.

End ConfirmPath.

Lemma Forall_observation_notAsked (l : list event) :
  Forall (fun e => isObservation e = true) l -> Forall (fun e => notAsked e = true) l.
Proof. apply Forall_impl. intros e. apply observation_notAsked. Qed.

Lemma notConfirm_false (e : event) : notConfirm e = true -> isConfirm e = false.
Proof. unfold notConfirm. destruct (isConfirm e); simpl; congruence. Qed.

Section AskingRuns.
Context {W : Type}.
Variable env : Env W.

(** A run that has to ask either never gets to the question, or its trace is
    observations, the question, and what the answer allows. *)
Lemma createAction_asks (options : Options) (w : W) :
  interactive options = false -> dryRun options = false ->
  Forall (fun e => notAsked e = true) (trace (snd (createAction env options (w, [])))) \/
  exists pre msg,
    Forall (fun e => isObservation e = true) pre /\
    ((trace (snd (createAction env options (w, [])))
      = pre ++ [EvConfirm msg (Some false); EvLog [chalk yellow "Cancelled"]] /\
      fst (createAction env options (w, [])) = Returned tt) \/
     (exists post,
        trace (snd (createAction env options (w, []))) = pre ++ EvConfirm msg None :: post /\
        Forall (fun e => notAsked e = true) post) \/
     (exists post,
        trace (snd (createAction env options (w, [])))
        = pre ++ EvConfirm msg (Some true) :: post /\
        Forall (fun e => notConfirm e = true) post)).
Proof.
  intros Hint Hdry.
  rewrite createAction_run, createReleaseBranch_run.
  destruct (planRelease env options (w, [])) as [[plan|e|c] s1] eqn:Hplan;
    destruct (emits_run _ _ _ _ _ (planRelease_observes env options) Hplan)
      as [evs [Htr Hobs]];
    unfold trace in *; cbn [snd app] in Htr.
  - destruct (carryOut env options plan s1) as [r s'] eqn:Hcarry.
    destruct (carryOut_confirm env _ _ _ _ _ Hint Hdry Hcarry)
      as [[e [queries [-> [Hs' Hq]]]]
         | [queries [msg [Hq [[e [-> Hs']] | [[-> Hs'] | [post [Hs' Hpost]]]]]]]];
      unfold trace in *; rewrite Htr in Hs'.
    + left. cbn [snd]. rewrite Hs'. rewrite !Forall_app. repeat split.
      * apply Forall_observation_notAsked, Hobs.
      * apply Forall_observation_notAsked, Hq.
      * repeat constructor.
    + right. exists (evs ++ queries), msg. split; [apply Forall_app; split; assumption|].
      right. left. eexists. split.
      * cbn [snd]. rewrite Hs'. rewrite <- !app_assoc. reflexivity.
      * repeat constructor.
    + right. exists (evs ++ queries), msg. split; [apply Forall_app; split; assumption|].
      left. split; [|reflexivity]. cbn [snd]. rewrite Hs', <- !app_assoc. reflexivity.
    + right. exists (evs ++ queries), msg. split; [apply Forall_app; split; assumption|].
      right. right. destruct r as [u|e|c].
      * exists post. split; [|exact Hpost]. cbn [snd]. rewrite Hs', <- !app_assoc. reflexivity.
      * eexists. split.
        -- cbn [snd]. rewrite Hs', <- !app_assoc. cbn [app]. reflexivity.
        -- apply Forall_app. split; [exact Hpost | repeat constructor].
      * exists post. split; [|exact Hpost]. cbn [snd]. rewrite Hs', <- !app_assoc. reflexivity.
  - left. cbn [snd]. rewrite Htr. apply Forall_app. split.
    + apply Forall_observation_notAsked, Hobs.
    + repeat constructor.
  - left. cbn [snd]. rewrite Htr. apply Forall_observation_notAsked, Hobs.
Qed.

End AskingRuns.

Lemma Forall_In_false {A} (p : A -> bool) (l : list A) (x : A) :
  Forall (fun e => p e = true) l -> In x l -> p x = false -> False.
Proof.
  intros Hall Hin Hx. rewrite Forall_forall in Hall.
  specialize (Hall x Hin). congruence.
Qed.

Section Confirmation.
Context {W : Type}.
Variable env : Env W.

(** C9.  When the command has to ask (neither interactive nor a dry run),
    every change to the repository comes after a confirmation that was
    answered yes; and a run in which the user answered no returns normally,
    with exit code 0, nothing on the error stream and no change. *)
Theorem create_asks_before_mutating (options : Options) (w : W) :
  interactive options = false -> dryRun options = false ->
  (forall pre e post,
     trace (snd (createAction env options (w, []))) = pre ++ e :: post ->
     isMutation e = true ->
     exists msg, In (EvConfirm msg (Some true)) pre) /\
  (forall msg,
     In (EvConfirm msg (Some false)) (trace (snd (createAction env options (w, [])))) ->
     fst (createAction env options (w, [])) = Returned tt /\
     exitCode (createAction env options (w, [])) = 0 /\
     Forall (fun e => isMutation e = false)
       (trace (snd (createAction env options (w, [])))) /\
     Forall (fun e => isErrorOutput e = false)
       (trace (snd (createAction env options (w, []))))).
Proof.
  intros Hint Hdry.
  destruct (createAction_asks env options w Hint Hdry)
    as [Hnever | [pre0 [msg0 [Hpre [[Htr Hret] | [[post0 [Htr Hpost]] | [post0 [Htr Hpost]]]]]]]].
  - split.
    + intros pre e post Heq Hmut. exfalso.
      apply (Forall_In_false notAsked _ e Hnever).
      * rewrite Heq. apply in_or_app. right. left. reflexivity.
      * unfold notAsked. rewrite Hmut. reflexivity.
    + intros msg Hin. exfalso.
      apply (Forall_In_false notAsked _ _ Hnever Hin). reflexivity.
  - split.
    + intros pre e post Heq Hmut. exfalso. rewrite Htr in Heq.
      assert (Hin : In e (pre0 ++ [EvConfirm msg0 (Some false);
                                   EvLog [chalk yellow "Cancelled"]])).
      { rewrite Heq. apply in_or_app. right. left. reflexivity. }
      apply in_app_or in Hin. destruct Hin as [Hin | [<- | [<- | []]]]; try discriminate Hmut.
      apply (Forall_In_false isObservation _ e Hpre Hin).
      destruct e as [[]| | | | |]; try discriminate Hmut; reflexivity.
    + intros msg _. split; [exact Hret|]. split; [unfold exitCode; rewrite Hret; reflexivity|].
      rewrite Htr. split; apply Forall_app; split.
      * eapply Forall_impl; [|exact Hpre]. intros ?. apply observation_notMutation.
      * repeat constructor.
      * eapply Forall_impl; [|exact Hpre]. intros ?. apply observation_notError.
      * repeat constructor.
  - split.
    + intros pre e post Heq Hmut. exfalso. rewrite Htr in Heq.
      assert (Hin : In e (pre0 ++ EvConfirm msg0 None :: post0)).
      { rewrite Heq. apply in_or_app. right. left. reflexivity. }
      apply in_app_or in Hin. destruct Hin as [Hin | [<- | Hin]]; try discriminate Hmut.
      * apply (Forall_In_false isObservation _ e Hpre Hin).
        destruct e as [[]| | | | |]; try discriminate Hmut; reflexivity.
      * apply (Forall_In_false notAsked _ e Hpost Hin).
        unfold notAsked. rewrite Hmut. reflexivity.
    + intros msg Hin. exfalso. rewrite Htr in Hin.
      apply in_app_or in Hin. destruct Hin as [Hin | [Heq | Hin]]; try discriminate Heq.
      * apply (Forall_In_false isObservation _ _ Hpre Hin). reflexivity.
      * apply (Forall_In_false notAsked _ _ Hpost Hin). reflexivity.
  - split.
    + intros pre e post Heq Hmut. rewrite Htr in Heq.
      destruct (app_cons_split _ _ _ _ _ _ Heq) as [Hin | [[-> _] | [_ [mid ->]]]].
      * exfalso. apply (Forall_In_false isObservation _ e Hpre Hin).
        destruct e as [[]| | | | |]; try discriminate Hmut; reflexivity.
      * discriminate Hmut.
      * exists msg0. apply in_or_app. right. left. reflexivity.
    + intros msg Hin. exfalso. rewrite Htr in Hin.
      apply in_app_or in Hin. destruct Hin as [Hin | [Heq | Hin]]; try discriminate Heq.
      * apply (Forall_In_false isObservation _ _ Hpre Hin). reflexivity.
      * apply (Forall_In_false notConfirm _ _ Hpost Hin). reflexivity.
Qed.

End Confirmation.

(** ** The theorems at work on scripted runs *)

Lemma create_fails_when_branch_exists_witness :
  exists place queries,
    (place = "locally" \/ place = "on remote") /\
    fst (createAction (Scripted.scripted Scripted.branchTaken) Scripted.defaults (tt, []))
    = Exited 1 /\
    exitCode (createAction (Scripted.scripted Scripted.branchTaken) Scripted.defaults (tt, []))
    = 1 /\
    trace (snd (createAction (Scripted.scripted Scripted.branchTaken) Scripted.defaults
                  (tt, [])))
    = trace (tt, []) ++ queries
      ++ [EvError [chalk red ("Error: Branch "
                              +++ branchName {| config := Scripted.defaults;
                                                finalVersion := "2024.01.15";
                                                branchName := "release/v2024.01.15" |}
                              +++ " already exists " +++ place)];
          EvExit 1] /\
    Forall (fun e => isMutation e = false) queries.
Proof.
  apply (create_fails_when_branch_exists (Scripted.scripted Scripted.branchTaken)
           Scripted.defaults (tt, [])
           (snd (planRelease (Scripted.scripted Scripted.branchTaken) Scripted.defaults
                   (tt, [])))
           {| config := Scripted.defaults; finalVersion := "2024.01.15";
              branchName := "release/v2024.01.15" |}).
  - vm_compute. reflexivity.
  - right. split; vm_compute; reflexivity.
Defined.

Lemma create_dry_run_witness :
  Forall (fun e => isMutation e = false)
    (trace (snd (createAction (Scripted.scripted Scripted.january15) Scripted.dryOptions
                   (tt, [])))) /\
  (forall u,
     fst (createAction (Scripted.scripted Scripted.january15) Scripted.dryOptions (tt, []))
     = Returned u ->
     exitCode (createAction (Scripted.scripted Scripted.january15) Scripted.dryOptions
                 (tt, [])) = 0 /\
     exists plan s1,
       planRelease (Scripted.scripted Scripted.january15) Scripted.dryOptions (tt, [])
       = (Returned plan, s1) /\
       trace (snd (createAction (Scripted.scripted Scripted.january15) Scripted.dryOptions
                     (tt, [])))
       = trace s1 ++ [EvGit BranchLocal; EvGit BranchRemote] ++ dryRunReport plan).
Proof.
  apply (create_dry_run (Scripted.scripted Scripted.january15) Scripted.dryOptions tt).
  reflexivity.
Defined.

Lemma create_asks_before_mutating_witness :
  (forall pre e post,
     trace (snd (createAction (Scripted.scripted Scripted.declining) Scripted.defaults
                   (tt, []))) = pre ++ e :: post ->
     isMutation e = true ->
     exists msg, In (EvConfirm msg (Some true)) pre) /\
  (forall msg,
     In (EvConfirm msg (Some false))
       (trace (snd (createAction (Scripted.scripted Scripted.declining) Scripted.defaults
                      (tt, [])))) ->
     fst (createAction (Scripted.scripted Scripted.declining) Scripted.defaults (tt, []))
     = Returned tt /\
     exitCode (createAction (Scripted.scripted Scripted.declining) Scripted.defaults (tt, []))
     = 0 /\
     Forall (fun e => isMutation e = false)
       (trace (snd (createAction (Scripted.scripted Scripted.declining) Scripted.defaults
                      (tt, [])))) /\
     Forall (fun e => isErrorOutput e = false)
       (trace (snd (createAction (Scripted.scripted Scripted.declining) Scripted.defaults
                      (tt, []))))).
Proof.
  apply (create_asks_before_mutating (Scripted.scripted Scripted.declining)
           Scripted.defaults tt); reflexivity.
Defined.

(** The user of the script above is asked, and says no. *)
Example declining_is_asked :
  In (EvConfirm "Create release branch release/v2024.01.15?" (Some false))
    (trace (snd (createAction (Scripted.scripted Scripted.declining) Scripted.defaults
                   (tt, [])))).
Proof. vm_compute. do 11 right. left. reflexivity. Qed.

Lemma queries_degrade_on_failure_witness :
  getMatchingTags (Scripted.scripted Scripted.failing) (MkRegExp "^v?2024") (tt, [])
  = (Returned [], (tt, [EvGit Tags])) /\
  branchExists (Scripted.scripted Scripted.failing) "main" (tt, [])
  = (Returned false, (tt, [EvGit BranchLocal])).
Proof.
  pose proof (queries_degrade_on_failure (Scripted.scripted Scripted.failing)
                (MkRegExp "^v?2024") "main" "origin" (tt, [])) as [Htags [Hlocal _]].
  split.
  - apply (Htags (MkError "fatal: not a git repository") tt). reflexivity.
  - apply (Hlocal (MkError "fatal: not a git repository") tt). reflexivity.
Defined.

(** * Further properties of the code *)

(** ** Runs that never end the process *)

Section StaysOn.
Context {W : Type}.

Lemma staysOn_ret {A} (a : A) : staysOn (W := W) (ret a).
Proof. intros s c. discriminate. Qed.

Lemma staysOn_throw {A} (e : Error) : staysOn (W := W) (throw (A := A) e).
Proof. intros s c. discriminate. Qed.

Lemma staysOn_bind {A B} (m : M (W := W) A) (k : A -> M B) :
  staysOn m -> (forall a, staysOn (k a)) -> staysOn (bind m k).
Proof.
  intros Hm Hk s c. unfold bind. specialize (Hm s).
  destruct (m s) as [[a|e|c'] s1]; cbn [fst] in *.
  - apply Hk.
  - discriminate.
  - exfalso. apply (Hm c'). reflexivity.
Qed.

Lemma staysOn_tryCatch {A} (m : M (W := W) A) (h : Error -> M A) :
  staysOn m -> (forall e, staysOn (h e)) -> staysOn (tryCatch m h).
Proof.
  intros Hm Hh s c. unfold tryCatch. specialize (Hm s).
  destruct (m s) as [[a|e|c'] s1]; cbn [fst] in *.
  - discriminate.
  - apply Hh.
  - exfalso. apply (Hm c'). reflexivity.
Qed.

Lemma staysOn_emit (e : event) : staysOn (W := W) (emit e).
Proof. intros s c. discriminate. Qed.

Lemma staysOn_perform {A} (f : W -> (Error + A) * W) (ev : Error + A -> event) :
  staysOn (perform f ev).
Proof.
  intros s c. unfold perform. destruct (f (fst s)) as [[e|a] w']; discriminate.
Qed.

Lemma staysOn_if {A} (b : bool) (m1 m2 : M (W := W) A) :
  staysOn m1 -> staysOn m2 -> staysOn (if b then m1 else m2).
Proof. destruct b; trivial. Qed.

End StaysOn.

Ltac staysOn_step :=
  first
    [ apply staysOn_ret
    | apply staysOn_throw
    | apply staysOn_bind; [|intros ?]
    | apply staysOn_tryCatch; [|intros ?]
    | apply staysOn_emit
    | apply staysOn_perform
    | apply staysOn_if
    | match goal with
      | |- staysOn (match ?x with _ => _ end) => destruct x
      end
    | progress cbv zeta ].

Ltac staysOn_tac := repeat staysOn_step.

Ltac unfold_release :=
  unfold createReleaseBranch, planRelease, carryOut, isGitRepo, getRepoInfo,
    runInteractiveMode, inquirer_questions, inquirer_confirm,
    getMatchingTags, getMatchingBranches, branchExists, remoteBranchExists,
    createBranch, pushBranch, new_RegExp, console_log,
    git_call_status, git_call_getRemotes, git_call_tags, git_call_branchLocal,
    git_call_branch_r, git_call_checkout, git_call_pull, git_call_checkoutLocalBranch,
    git_call_push.

Section Handler.
Context {W : Type}.
Variable env : Env W.

Lemma staysOn_new_Date : staysOn (new_Date env).
Proof.
  intros s c. unfold new_Date. destruct (date_now env (fst s)). discriminate.
Qed.

Lemma createReleaseBranch_staysOn (options : Options) :
  staysOn (createReleaseBranch env options).
Proof.
  unfold_release. repeat first [ apply staysOn_new_Date | staysOn_step ].
Qed.

Lemma createReleaseBranch_notFailure (options : Options) :
  emits notFailure (createReleaseBranch env options).
Proof.
  unfold_release.
  repeat first [ apply emits_new_Date | emits_step | progress cbv zeta ].
Qed.

(** X1.  The handler of [create] never lets an error escape and knows two
    endings: it returns (exit code 0) with nothing on the error stream, or
    it prints one line "Error: ..." on the error stream and ends the process
    with exit code 1, that line and the exit being the last two events. *)
Theorem createAction_returns_or_reports (options : Options) (w : W) :
  (fst (createAction env options (w, [])) = Returned tt /\
   exitCode (createAction env options (w, [])) = 0 /\
   Forall (fun e => notFailure e = true) (trace (snd (createAction env options (w, []))))) \/
  (fst (createAction env options (w, [])) = Exited 1 /\
   exitCode (createAction env options (w, [])) = 1 /\
   exists e pre,
     trace (snd (createAction env options (w, [])))
     = pre ++ [EvError [chalk red ("Error: " +++ message e)]; EvExit 1] /\
     Forall (fun e => notFailure e = true) pre).
Proof.
  rewrite createAction_run.
  pose proof (createReleaseBranch_staysOn options (w, [])) as Hstay.
  destruct (createReleaseBranch env options (w, [])) as [[u|e|c] s'] eqn:Hrun;
    destruct (emits_run _ _ _ _ _ (createReleaseBranch_notFailure options) Hrun)
      as [evs [Htr Hev]]; unfold trace in *; cbn [snd app] in Htr.
  - left. destruct u. split; [reflexivity|]. split; [reflexivity|].
    cbn [snd]. rewrite Htr. exact Hev.
  - right. split; [reflexivity|]. split; [reflexivity|].
    exists e, evs. cbn [snd]. rewrite Htr. split; [reflexivity | exact Hev].
  - exfalso. apply (Hstay c). reflexivity.
Qed.

End Handler.

(** ** What planning returns *)

Lemma bind_Returned {W A B} (m : M (W := W) A) (k : A -> M B) (s s' : state) (b : B) :
  bind m k s = (Returned b, s') ->
  exists a s1, m s = (Returned a, s1) /\ k a s1 = (Returned b, s').
Proof.
  unfold bind. destruct (m s) as [[a|e|c] s1]; intros H; try discriminate H.
  exists a, s1. split; [reflexivity | exact H].
Qed.

Lemma ret_Returned {W A} (a b : A) (s s' : @state W) :
  ret a s = (Returned b, s') -> a = b /\ s = s'.
Proof. unfold ret. intros H. injection H as -> ->. split; reflexivity. Qed.

Section Plan.
Context {W : Type}.
Variable env : Env W.

Lemma runInteractiveMode_flags (options config : Options) (s s' : state) :
  runInteractiveMode env options s = (Returned config, s') ->
  dryRun config = dryRun options /\ interactive config = interactive options.
Proof.
  unfold runInteractiveMode. cbv zeta. intros H.
  apply bind_Returned in H. destruct H as [answers [s1 [_ H]]].
  apply ret_Returned in H. destruct H as [<- _]. split; reflexivity.
Qed.

(** The plan: the branch is "release/v" and the final version, the final
    version is what [generateIncremental] makes of the version of the day,
    and the options stand unless the guided questions replaced them. *)
Lemma planRelease_plan (options : Options) (plan : Plan) (s s' : state) :
  planRelease env options s = (Returned plan, s') ->
  branchName plan = "release/v" +++ finalVersion plan /\
  (interactive options = false -> config plan = options) /\
  dryRun (config plan) = dryRun options /\
  interactive (config plan) = interactive options /\
  exists t existing,
    finalVersion plan
    = CalVer.generateIncremental
        (CalVer.generate (moment_formatOther env)
           (CalVer.new_CalVerGenerator (Some (opt_format (config plan))) None)
           (TimeValue t))
        existing.
Proof.
  unfold planRelease. intros H.
  repeat (apply bind_Returned in H; destruct H as [? [? [? H]]]).
  cbv zeta in H.
  repeat (apply bind_Returned in H; destruct H as [? [? [? H]]]).
  apply ret_Returned in H. destruct H as [<- _]. cbn [branchName finalVersion config].
  split; [reflexivity|].
  match goal with
  | Hc : (if interactive options then _ else _) _ = (Returned ?c, _),
    Hd : new_Date env _ = (Returned ?d, _) |- _ =>
      rename Hc into Hconfig; rename Hd into Hdate; rename c into cfg; rename d into date
  end.
  assert (Hflags : (interactive options = false -> cfg = options) /\
                   dryRun cfg = dryRun options /\ interactive cfg = interactive options).
  { destruct (interactive options) eqn:Hint.
    - apply runInteractiveMode_flags in Hconfig. rewrite Hint in Hconfig.
      destruct Hconfig as [Hd Hi]. split; [discriminate|]. split; assumption.
    - apply ret_Returned in Hconfig. destruct Hconfig as [<- _].
      split; [reflexivity|]. split; [reflexivity | exact Hint]. }
  destruct Hflags as [Hf1 [Hf2 Hf3]].
  split; [exact Hf1|]. split; [exact Hf2|]. split; [exact Hf3|].
  unfold new_Date in Hdate.
  match type of Hdate with
  | context [date_now env ?w0] => destruct (date_now env w0) as [t w']
  end.
  injection Hdate as <- _.
  exists t. eexists. reflexivity.
Qed.

End Plan.

Lemma append_nil_r (s : string) : s +++ EmptyString = s.
Proof. induction s; simpl; congruence. Qed.

Section Orchestrator.
Context {W : Type}.
Variable env : Env W.


(** X2.  Outside a git repository (the status call fails) the handler
    makes that one call, prints "Error: Not in a git repository" on the
    error stream and exits with code 1; it asks and changes nothing. *)
Theorem create_outside_repository (options : Options) (w w' : W) (e : Error) :
  git_status env w = (inl e, w') ->
  createAction env options (w, [])
  = (Exited 1,
     (w', [EvGit Status; EvError [chalk red "Error: Not in a git repository"]; EvExit 1])).
Proof.
  intros H. rewrite createAction_run, createReleaseBranch_run.
  unfold planRelease. unfold bind at 1. rewrite isGitRepo_run.
  cbn [fst snd trace]. rewrite H. reflexivity.
Qed.

Lemma carryOut_notPush (options : Options) (plan : Plan) :
  push (config plan) = false -> emits notPush (carryOut env options plan).
Proof.
  intros Hpush. unfold carryOut. cbv zeta. rewrite Hpush.
  unfold branchExists, remoteBranchExists, inquirer_confirm, createBranch, console_log,
    git_call_branchLocal, git_call_branch_r, git_call_checkout, git_call_pull,
    git_call_checkoutLocalBranch.
  emits_tac.
Qed.

Lemma observation_notPush (e : event) : isObservation e = true -> notPush e = true.
Proof.
  destruct e as [[]| | | | |]; cbv; intros H; first [reflexivity | discriminate H].
Qed.

(** X3.  Without --interactive and without --push no run ever pushes. *)
Theorem create_pushes_only_on_request (options : Options) (w : W) :
  interactive options = false -> push options = false ->
  Forall (fun e => isPush e = false) (trace (snd (createAction env options (w, [])))).
Proof.
  intros Hint Hpush.
  assert (Hall : Forall (fun e => notPush e = true)
                   (trace (snd (createAction env options (w, []))))).
  { rewrite createAction_run, createReleaseBranch_run.
    destruct (planRelease env options (w, [])) as [[plan|e|c] s1] eqn:Hplan;
      destruct (emits_run _ _ _ _ _ (planRelease_observes env options) Hplan)
        as [evs [Htr Hobs]]; unfold trace in *; cbn [snd app] in Htr;
      assert (Hevs : Forall (fun e => notPush e = true) evs)
        by (eapply Forall_impl; [|exact Hobs]; intros ?; apply observation_notPush).
    - destruct (planRelease_plan env _ _ _ _ Hplan) as [_ [Hcfg _]].
      specialize (Hcfg Hint).
      assert (Hp : push (config plan) = false) by (rewrite Hcfg; exact Hpush).
      destruct (carryOut env options plan s1) as [r s'] eqn:Hcarry.
      destruct (emits_run _ _ _ _ _ (carryOut_notPush options plan Hp) Hcarry)
        as [evs' [Htr' Hevs']]. unfold trace in *.
      destruct r; cbn [snd]; rewrite ?Htr', ?Htr; rewrite ?Forall_app;
        repeat split; trivial; repeat constructor.
    - cbn [snd]. rewrite Htr. apply Forall_app. split; [exact Hevs | repeat constructor].
    - cbn [snd]. rewrite Htr. exact Hevs. }
  eapply Forall_impl; [|exact Hall]. intros e. unfold notPush.
  destruct (isPush e); simpl; congruence.
Qed.

End Orchestrator.

Section Prompts.
Context {W : Type}.
Variable env : Env W.

Lemma createAction_interactive_notConfirm (options : Options) :
  interactive options = true -> emits notConfirm (createAction env options).
Proof.
  intros Hint. unfold createAction, console_error. unfold_release.
  rewrite Hint. cbn [negb].
  repeat first [ apply emits_new_Date | emits_step | progress cbv zeta ].
Qed.

Lemma createAction_direct_notQuestions (options : Options) :
  interactive options = false -> emits notQuestions (createAction env options).
Proof.
  intros Hint. unfold createAction, console_error. unfold_release.
  rewrite Hint. cbn [negb].
  repeat first [ apply emits_new_Date | emits_step | progress cbv zeta ].
Qed.

(** X4.  Each mode has its own prompt: an interactive run never asks the
    yes/no confirmation, and a run that is not interactive never asks the
    guided questions. *)
Theorem create_prompts_by_mode (options : Options) (w : W) :
  Forall (fun e => (if interactive options then isConfirm e else isQuestions e) = false)
    (trace (snd (createAction env options (w, [])))).
Proof.
  destruct (interactive options) eqn:Hint.
  - pose proof (emits_from_nil _ _ w (createAction_interactive_notConfirm options Hint)) as H.
    eapply Forall_impl; [|exact H]. intros e. unfold notConfirm.
    destruct (isConfirm e); simpl; congruence.
  - pose proof (emits_from_nil _ _ w (createAction_direct_notQuestions options Hint)) as H.
    eapply Forall_impl; [|exact H]. intros e. unfold notQuestions.
    destruct (isQuestions e); simpl; congruence.
Qed.

End Prompts.

(** ** The order of the changes *)

Lemma isPrefixOf_refl {A} (l : list A) : isPrefixOf l l.
Proof. exists []. rewrite app_nil_r. reflexivity. Qed.

Lemma isPrefixOf_nil {A} (l : list A) : isPrefixOf [] l.
Proof. exists l. reflexivity. Qed.

Lemma isPrefixOf_app_r {A} (l l1 l2 : list A) : isPrefixOf l l1 -> isPrefixOf l (l1 ++ l2).
Proof. intros [rest ->]. exists (rest ++ l2). rewrite app_assoc. reflexivity. Qed.

Lemma isPrefixOf_app_l {A} (l l1 l2 : list A) : isPrefixOf l1 l2 -> isPrefixOf (l ++ l1) (l ++ l2).
Proof. intros [rest ->]. exists rest. rewrite app_assoc. reflexivity. Qed.

Section BranchSteps.
Context {W : Type}.
Variable env : Env W.

(** X7.  [createBranch] switches to the base branch and pulls it (when a
    base branch is given and not empty), then creates the branch: either all
    calls succeed and the success line is printed last, or it throws at the
    first failing call, having attempted a non-empty beginning of that
    sequence and printed nothing. *)
Theorem createBranch_in_order (branchName : string) (fromBranch : option string)
    (s s' : state) (r : outcome unit) :
  createBranch env branchName fromBranch s = (r, s') ->
  (r = Returned tt /\
   trace s' = trace s ++ createBranchSteps branchName fromBranch
              ++ [EvLog [chalk green ("✓ Created and switched to branch: " +++ branchName)]]) \/
  (exists e attempted,
     r = Thrown e /\ trace s' = trace s ++ attempted /\
     attempted <> [] /\ isPrefixOf attempted (createBranchSteps branchName fromBranch)).
Proof.
  unfold createBranch, createBranchSteps, git_call_checkout, git_call_pull,
    git_call_checkoutLocalBranch, console_log, emit, bind, perform, ret, trace.
  destruct (truthy fromBranch) as [b|]; cbn [fst snd].
  - destruct (git_checkout env b (fst s)) as [[e|[]] w1].
    { intros H. injection H as <- <-. right. exists e, [EvGit (Checkout b)].
      split; [reflexivity|]. split; [reflexivity|]. split; [discriminate|].
      eexists. reflexivity. }
    cbn [fst snd]. destruct (git_pull env w1) as [[e|[]] w2].
    { intros H. injection H as <- <-. right. exists e, [EvGit (Checkout b); EvGit Pull].
      split; [reflexivity|]. split; [cbn [snd]; rewrite <- app_assoc; reflexivity|].
      split; [discriminate|]. eexists. reflexivity. }
    cbn [fst snd]. destruct (git_checkoutLocalBranch env branchName w2) as [[e|[]] w3].
    { intros H. injection H as <- <-. right.
      exists e, [EvGit (Checkout b); EvGit Pull; EvGit (CheckoutLocalBranch branchName)].
      split; [reflexivity|]. split; [cbn [snd]; rewrite <- !app_assoc; reflexivity|].
      split; [discriminate|]. apply isPrefixOf_refl. }
    intros H. injection H as <- <-. left. split; [reflexivity|].
    cbn [snd fst]. rewrite <- !app_assoc. reflexivity.
  - destruct (git_checkoutLocalBranch env branchName (fst s)) as [[e|[]] w3].
    { intros H. injection H as <- <-. right.
      exists e, [EvGit (CheckoutLocalBranch branchName)].
      split; [reflexivity|]. split; [reflexivity|].
      split; [discriminate|]. apply isPrefixOf_refl. }
    intros H. injection H as <- <-. left. split; [reflexivity|].
    cbn [snd fst]. rewrite <- !app_assoc. reflexivity.
Qed.

Lemma pushBranch_run (branchName remote : string) (s s' : state) (r : outcome unit) :
  pushBranch env branchName remote s = (r, s') ->
  (r = Returned tt /\
   trace s' = trace s ++ [EvGit (Push ["-u"; remote; branchName]);
                         EvLog [chalk green ("✓ Pushed branch to " +++ remote +++ "/"
                                             +++ branchName)]]) \/
  (exists e, r = Thrown e /\ trace s' = trace s ++ [EvGit (Push ["-u"; remote; branchName])]).
Proof.
  unfold pushBranch, git_call_push, console_log, emit, bind, perform, ret, trace.
  destruct (git_push env ["-u"; remote; branchName] (fst s)) as [[e|[]] w1];
    intros H; injection H as <- <-.
  - right. exists e. split; reflexivity.
  - left. split; [reflexivity|]. cbn [snd fst]. rewrite <- !app_assoc. reflexivity.
Qed.

End BranchSteps.

Lemma bind_inv {W A B} (m : M (W := W) A) (k : A -> M B) (s s' : state) (r : outcome B) :
  bind m k s = (r, s') ->
  (exists a s1, m s = (Returned a, s1) /\ k a s1 = (r, s')) \/
  (exists e, m s = (Thrown e, s') /\ r = Thrown e) \/
  (exists c, m s = (Exited c, s') /\ r = Exited c).
Proof.
  unfold bind. destruct (m s) as [[a|e|c] s1]; intros H.
  - left. exists a, s1. split; [reflexivity | exact H].
  - right. left. injection H as <- <-. exists e. split; reflexivity.
  - right. right. injection H as <- <-. exists c. split; reflexivity.
Qed.

Lemma console_log_run {W} (args : list styled) (s : @state W) :
  console_log args s = (Returned tt, (fst s, snd s ++ [EvLog args])).
Proof. reflexivity. Qed.

Lemma filter_observations (l : list event) :
  Forall (fun e => isObservation e = true) l -> filter isMutation l = [].
Proof.
  induction 1 as [|e l He _ IH]; [reflexivity|]. cbn [filter].
  rewrite (observation_notMutation e He). exact IH.
Qed.

Section StepsOfARun.
Context {W : Type}.
Variable env : Env W.

Lemma createBranch_mutations (branchName : string) (fromBranch : option string)
    (s s' : state) (r : outcome unit) :
  createBranch env branchName fromBranch s = (r, s') ->
  exists evs,
    trace s' = trace s ++ evs /\
    isPrefixOf (filter isMutation evs) (createBranchSteps branchName fromBranch) /\
    (r = Returned tt -> filter isMutation evs = createBranchSteps branchName fromBranch).
Proof.
  unfold createBranch, createBranchSteps, git_call_checkout, git_call_pull,
    git_call_checkoutLocalBranch, console_log, emit, bind, perform, ret, trace.
  destruct (truthy fromBranch) as [b|]; cbn [fst snd].
  - destruct (git_checkout env b (fst s)) as [[e|[]] w1]; cbn [fst snd].
    { intros H. injection H as <- <-. eexists. split; [reflexivity|].
      split; [eexists; reflexivity | discriminate]. }
    destruct (git_pull env w1) as [[e|[]] w2]; cbn [fst snd].
    { intros H. injection H as <- <-. eexists. split; [rewrite <- app_assoc; reflexivity|].
      split; [eexists; reflexivity | discriminate]. }
    destruct (git_checkoutLocalBranch env branchName w2) as [[e|[]] w3]; cbn [fst snd];
      intros H; injection H as <- <-; eexists;
      (split; [rewrite <- !app_assoc; reflexivity|]);
      (split; [apply isPrefixOf_refl | intros _; reflexivity]).
  - destruct (git_checkoutLocalBranch env branchName (fst s)) as [[e|[]] w3]; cbn [fst snd];
      intros H; injection H as <- <-; eexists;
      (split; [rewrite <- ?app_assoc; reflexivity|]);
      (split; [apply isPrefixOf_refl | intros _; reflexivity]).
Qed.

(** After the confirmation: the announcement, the branch, the push and the
    closing lines. *)
Lemma carryOut_steps (options : Options) (plan : Plan) (s s' : state) (r : outcome unit) :
  carryOut env options plan s = (r, s') ->
  exists evs,
    trace s' = trace s ++ evs /\
    isPrefixOf (filter isMutation evs) (releaseSteps plan) /\
    (r = Returned tt ->
     filter isMutation evs = [] \/ filter isMutation evs = releaseSteps plan).
Proof.
  intros H. unfold carryOut in H. cbv zeta in H.
  apply bind_inv in H. destruct H as [[b1 [s2 [Hb1 H]]] | [[e [Hb1 _]] | [c [Hb1 _]]]];
    rewrite branchExists_run in Hb1; try discriminate Hb1.
  injection Hb1 as _ <-.
  apply bind_inv in H. destruct H as [[u [s2' [Ht H]]] | [[e [Ht ->]] | [c [Ht _]]]].
  3: { destruct b1; discriminate Ht. }
  2: { destruct b1; [|discriminate Ht]. injection Ht as _ <-.
       exists [EvGit BranchLocal]. split; [reflexivity|].
       split; [apply isPrefixOf_nil | discriminate]. }
  destruct b1; [discriminate Ht|]. injection Ht as _ <-.
  apply bind_inv in H. destruct H as [[b2 [s3 [Hb2 H]]] | [[e [Hb2 _]] | [c [Hb2 _]]]];
    rewrite remoteBranchExists_run in Hb2; try discriminate Hb2.
  injection Hb2 as _ <-.
  apply bind_inv in H. destruct H as [[u' [s3' [Ht H]]] | [[e [Ht ->]] | [c [Ht _]]]].
  3: { destruct b2; discriminate Ht. }
  2: { destruct b2; [|discriminate Ht]. injection Ht as _ <-.
       exists [EvGit BranchLocal; EvGit BranchRemote]. split.
       - cbn [trace snd]. rewrite <- app_assoc. reflexivity.
       - split; [apply isPrefixOf_nil | discriminate]. }
  destruct b2; [discriminate Ht|]. injection Ht as _ <-.
  cbn [trace snd fst] in *.
  destruct (dryRun options).
  { (* dry run: only lines on the console *)
    eapply (emits_run isObservation) in H; [|unfold console_log; emits_tac].
    destruct H as [evs [Htr Hobs]]. unfold trace in *. cbn [snd] in Htr.
    exists ([EvGit BranchLocal; EvGit BranchRemote] ++ evs).
    rewrite Htr, <- !app_assoc. split; [reflexivity|].
    assert (Hf : filter isMutation ([EvGit BranchLocal; EvGit BranchRemote] ++ evs) = []).
    { cbn [app filter isMutation]. apply filter_observations. exact Hobs. }
    rewrite Hf. split; [apply isPrefixOf_nil | intros _; left; reflexivity]. }
  apply bind_inv in H.
  destruct H as [[confirmed [s4 [Hask H]]] | [[e [Hask ->]] | [c [Hask _]]]].
  3: { destruct (interactive options); cbn [negb] in Hask; [discriminate Hask|].
       unfold inquirer_confirm, perform in Hask.
       destruct (prompt_confirm env _ _) as [[?|?] ?] in Hask; discriminate Hask. }
  2: { destruct (interactive options); cbn [negb] in Hask; [discriminate Hask|].
       eapply (emits_run notMutation) in Hask;
         [|unfold inquirer_confirm; apply emits_perform; intros ?; reflexivity].
       destruct Hask as [evs [Htr Hq]]. unfold trace in *. cbn [snd] in Htr.
       exists ([EvGit BranchLocal; EvGit BranchRemote] ++ evs).
       rewrite Htr, <- !app_assoc. split; [reflexivity|].
       assert (Hf : filter isMutation ([EvGit BranchLocal; EvGit BranchRemote] ++ evs) = []).
       { cbn [app filter isMutation]. clear Htr.
         induction Hq as [|x l Hx _ IH]; [reflexivity|]. cbn [filter].
         unfold notMutation in Hx.
         destruct (isMutation x); [discriminate Hx | exact IH]. }
       rewrite Hf. split; [apply isPrefixOf_nil | discriminate]. }
  assert (Hs4 : exists asked, snd s4 = snd s ++ [EvGit BranchLocal; EvGit BranchRemote] ++ asked
                              /\ filter isMutation asked = []).
  { destruct (interactive options); cbn [negb] in Hask.
    - apply ret_Returned in Hask. destruct Hask as [_ <-]. exists [].
      cbn [snd]. rewrite <- !app_assoc. split; reflexivity.
    - unfold inquirer_confirm, perform in Hask. cbn [fst snd] in Hask.
      destruct (prompt_confirm env _ _) as [[?|?] ?] in Hask; [discriminate Hask|].
      injection Hask as _ <-. eexists. cbn [snd]. rewrite <- !app_assoc.
      split; reflexivity. }
  destruct Hs4 as [asked [Hs4 Hasked]].
  destruct confirmed; cbn [negb] in H.
  2: { rewrite console_log_run in H. injection H as <- <-.
       exists ([EvGit BranchLocal; EvGit BranchRemote] ++ asked
               ++ [EvLog [chalk yellow "Cancelled"]]).
       cbn [trace snd]. rewrite Hs4, <- !app_assoc. split; [reflexivity|].
       assert (Hf : filter isMutation
                      ([EvGit BranchLocal; EvGit BranchRemote] ++ asked
                       ++ [EvLog [chalk yellow "Cancelled"]]) = []).
       { rewrite !filter_app, Hasked. reflexivity. }
       rewrite Hf. split; [apply isPrefixOf_nil | intros _; left; reflexivity]. }
  assert (Heq : createBranchSteps (branchName plan) (Some (baseBranch (config plan)))
                ++ (if push (config plan)
                    then [EvGit (Push ["-u"; "origin"; branchName plan])] else [])
                = releaseSteps plan).
  { unfold releaseSteps, createBranchSteps. rewrite <- !app_assoc. reflexivity. }
  apply bind_inv in H. destruct H as [[u1 [s5 [Hlog H]]] | [[e [Hlog _]] | [c [Hlog _]]]];
    rewrite console_log_run in Hlog; try discriminate Hlog.
  injection Hlog as _ <-.
  apply bind_inv in H.
  destruct H as [[u2 [s6 [Hcreate H]]] | [[e [Hcreate ->]] | [c [Hcreate ->]]]].
  2, 3: (destruct (createBranch_mutations _ _ _ _ _ Hcreate) as [evs [Htr [Hpre _]]];
         unfold trace in *; cbn [snd] in Htr;
         exists ([EvGit BranchLocal; EvGit BranchRemote] ++ asked
                 ++ [EvLog [chalk blue (String "010"%char "Creating release branch...")]]
                 ++ evs);
         rewrite Htr, Hs4, <- !app_assoc; (split; [reflexivity|]);
         rewrite !filter_app, Hasked; cbn [filter isMutation app];
         (split; [|discriminate]);
         rewrite <- Heq; apply isPrefixOf_app_r; exact Hpre).
  destruct (createBranch_mutations _ _ _ _ _ Hcreate) as [evs [Htr [_ Hall]]].
  destruct u2. specialize (Hall eq_refl).
  unfold trace in *. cbn [snd] in Htr.
  apply bind_inv in H.
  destruct H as [[u3 [s7 [Hpush H]]] | [[e [Hpush ->]] | [c [Hpush ->]]]].
  - (* the push, when asked for, went through *)
    eapply (emits_run isObservation) in H; [|unfold console_log; emits_tac].
    destruct H as [closing [Hclose Hobs]]. unfold trace in *.
    assert (Hp : exists pushed, snd s7 = snd s6 ++ pushed /\
                   filter isMutation pushed
                   = (if push (config plan)
                      then [EvGit (Push ["-u"; "origin"; branchName plan])] else [])).
    { destruct (push (config plan)).
      - apply bind_inv in Hpush.
        destruct Hpush as [[u4 [s8 [Hl Hpush]]] | [[e [Hl _]] | [c [Hl _]]]];
          rewrite console_log_run in Hl; try discriminate Hl.
        injection Hl as _ <-.
        destruct (pushBranch_run env _ _ _ _ _ Hpush) as [[_ Hs7] | [e [He _]]];
          [|discriminate He].
        unfold trace in Hs7. cbn [snd] in Hs7. eexists. split.
        + rewrite Hs7, <- !app_assoc. reflexivity.
        + reflexivity.
      - apply ret_Returned in Hpush. destruct Hpush as [_ <-]. exists [].
        rewrite app_nil_r. split; reflexivity. }
    destruct Hp as [pushed [Hs7 Hpushed]].
    exists ([EvGit BranchLocal; EvGit BranchRemote] ++ asked
            ++ [EvLog [chalk blue (String "010"%char "Creating release branch...")]]
            ++ evs ++ pushed ++ closing).
    rewrite Hclose, Hs7, Htr, Hs4, <- !app_assoc. split; [reflexivity|].
    rewrite !filter_app, Hasked, Hall, Hpushed, (filter_observations _ Hobs).
    cbn [filter isMutation app]. rewrite app_nil_r.
    rewrite Heq. split; [apply isPrefixOf_refl | intros _; right; reflexivity].
  - (* the push failed *)
    destruct (push (config plan)) eqn:Hflag; [|discriminate Hpush].
    apply bind_inv in Hpush.
    destruct Hpush as [[u4 [s8 [Hl Hpush]]] | [[e' [Hl _]] | [c [Hl _]]]];
      rewrite console_log_run in Hl; try discriminate Hl.
    injection Hl as _ <-.
    destruct (pushBranch_run env _ _ _ _ _ Hpush) as [[He _] | [e' [_ Hs']]];
      [discriminate He|].
    unfold trace in Hs'. cbn [snd] in Hs'.
    eexists. rewrite Hs', Htr, Hs4, <- !app_assoc. split; [reflexivity|].
    rewrite !filter_app, Hasked, Hall. cbn [filter isMutation app].
    split; [|discriminate].
    rewrite <- Heq. apply isPrefixOf_refl.
  - (* nothing here ends the process *)
    exfalso. destruct (push (config plan)); [|discriminate Hpush].
    apply bind_inv in Hpush.
    destruct Hpush as [[u4 [s8 [Hl Hpush]]] | [[e' [Hl _]] | [c' [Hl _]]]];
      rewrite console_log_run in Hl; try discriminate Hl.
    destruct (pushBranch_run env _ _ _ _ _ Hpush) as [[He _] | [e' [He _]]]; discriminate He.
Qed.

End StepsOfARun.

Section OrderOfChanges.
Context {W : Type}.
Variable env : Env W.

(** X5.  A run that touches the repository does so along the plan: the
    calls it makes are, in this order, checkout of the base branch, pull,
    creation of the release branch and (when pushing was asked for) push;
    it stops at the first call that fails, undoing nothing, and a run that
    returns has made them all. *)
Theorem create_changes_in_order (options : Options) (w : W) :
  filter isMutation (trace (snd (createAction env options (w, [])))) <> [] ->
  exists plan s1,
    planRelease env options (w, []) = (Returned plan, s1) /\
    isPrefixOf (filter isMutation (trace (snd (createAction env options (w, [])))))
      (releaseSteps plan) /\
    (fst (createAction env options (w, [])) = Returned tt ->
     filter isMutation (trace (snd (createAction env options (w, [])))) = releaseSteps plan).
Proof.
  rewrite createAction_run, createReleaseBranch_run.
  destruct (planRelease env options (w, [])) as [[plan|e|c] s1] eqn:Hplan;
    destruct (emits_run _ _ _ _ _ (planRelease_observes env options) Hplan)
      as [evs [Htr Hobs]]; unfold trace in *; cbn [snd app] in Htr;
    pose proof (filter_observations _ Hobs) as Hnone.
  - destruct (carryOut env options plan s1) as [r s'] eqn:Hcarry.
    destruct (carryOut_steps env _ _ _ _ _ Hcarry) as [evs' [Htr' [Hpre Hall]]].
    unfold trace in *. intros Hsome. exists plan, s1. split; [reflexivity|].
    assert (Hf : filter isMutation (snd s') = filter isMutation evs').
    { rewrite Htr', Htr, filter_app, Hnone. reflexivity. }
    destruct r as [[]|e|c]; cbn [snd fst] in *.
    + rewrite Hf in *. split; [exact Hpre|]. intros _.
      destruct (Hall eq_refl) as [H0 | H1]; [congruence | exact H1].
    + rewrite filter_app in *. cbn [filter isMutation] in *. rewrite app_nil_r in *.
      rewrite Hf in *. split; [exact Hpre | discriminate].
    + rewrite Hf in *. split; [exact Hpre | discriminate].
  - cbn [snd]. rewrite Htr, filter_app, Hnone. cbn. congruence.
  - cbn [snd]. rewrite Htr, Hnone. congruence.
Qed.

End OrderOfChanges.

Lemma create_changes_in_order_witness :
  exists plan s1,
    planRelease (Scripted.scripted Scripted.january15) Scripted.defaults (tt, [])
    = (Returned plan, s1) /\
    isPrefixOf
      (filter isMutation
         (trace (snd (createAction (Scripted.scripted Scripted.january15) Scripted.defaults
                        (tt, [])))))
      (releaseSteps plan) /\
    (fst (createAction (Scripted.scripted Scripted.january15) Scripted.defaults (tt, []))
     = Returned tt ->
     filter isMutation
       (trace (snd (createAction (Scripted.scripted Scripted.january15) Scripted.defaults
                      (tt, []))))
     = releaseSteps plan).
Proof.
  apply (create_changes_in_order (Scripted.scripted Scripted.january15) Scripted.defaults tt).
  vm_compute. discriminate.
Defined.

(** ** The adapter *)

Lemma startsWith_append (p rest : string) : startsWith (p +++ rest) p = true.
Proof. induction p as [|c p IH]; simpl; [reflexivity|]. rewrite Ascii.eqb_refl. exact IH. Qed.

Lemma includes_here (s sub : string) : startsWith s sub = true -> includes s sub = true.
Proof. intros H. destruct s; simpl; rewrite H; reflexivity. Qed.

Lemma includes_append (pre s sub : string) :
  includes s sub = true -> includes (pre +++ s) sub = true.
Proof.
  intros H. induction pre as [|c pre IH]; [exact H|].
  cbn [String.append includes]. rewrite IH. apply orb_true_r.
Qed.

Section AdapterFailures.
Context {W : Type}.
Variable env : Env W.

(** X8.  When the status call fails, [isGitRepo] answers false, while
    [getCurrentBranch] and [isClean] throw the error they got; each makes
    that one call. *)
Theorem status_failure_handling (s : state) (e : Error) (w' : W) :
  git_status env (fst s) = (inl e, w') ->
  isGitRepo env s = (Returned false, (w', trace s ++ [EvGit Status])) /\
  getCurrentBranch env s = (Thrown e, (w', trace s ++ [EvGit Status])) /\
  isClean env s = (Thrown e, (w', trace s ++ [EvGit Status])).
Proof.
  intros H. split; [|split].
  - rewrite isGitRepo_run, H. reflexivity.
  - unfold getCurrentBranch, bind, git_call_status, perform. rewrite H. reflexivity.
  - unfold isClean, bind, git_call_status, perform. rewrite H. reflexivity.
Qed.

(** X9.  Whatever [getRepoInfo] throws has a message that starts with
    "Failed to get repository info: " and goes on with the message of the
    failure of the remotes call or, when that one succeeded, of the status
    call. *)
Theorem getRepoInfo_failure_message (s s' : state) (e : Error) :
  getRepoInfo env s = (Thrown e, s') ->
  exists cause, message e = "Failed to get repository info: " +++ message cause /\
    (fst (git_getRemotes env (fst s)) = inl cause \/
     exists remotes,
       fst (git_getRemotes env (fst s)) = inr remotes /\
       fst (git_status env (snd (git_getRemotes env (fst s)))) = inl cause).
Proof.
  unfold getRepoInfo, tryCatch, bind, git_call_getRemotes, git_call_status, perform, throw,
    ret.
  destruct (git_getRemotes env (fst s)) as [[e1|remotes] w1]; cbn [fst snd].
  - intros H. injection H as <- _. exists e1. split; [reflexivity | left; reflexivity].
  - destruct (git_status env w1) as [[e2|st] w2]; cbn [fst snd].
    + intros H. injection H as <- _. exists e2. split; [reflexivity|].
      right. exists remotes. split; reflexivity.
    + discriminate.
Qed.

(** X10.  [remoteBranchExists] is a substring test: it answers true as
    soon as some remote branch name contains "<remote>/<branchName>"
    anywhere, so a longer branch name counts as well. *)
Theorem remoteBranchExists_substring (branchName remote before after : string)
    (branches : list string) (s : state) (w' : W) :
  git_branch_r env (fst s) = (inr branches, w') ->
  In (before +++ remote +++ "/" +++ branchName +++ after) branches ->
  remoteBranchExists env branchName remote s
  = (Returned true, (w', trace s ++ [EvGit BranchRemote])).
Proof.
  intros Hgit Hin. rewrite remoteBranchExists_run, Hgit. cbn [fst snd].
  replace (existsb _ branches) with true; [reflexivity|].
  symmetry. apply existsb_exists.
  exists (before +++ remote +++ "/" +++ branchName +++ after). split; [exact Hin|].
  apply includes_append, includes_here.
  replace (remote +++ "/" +++ branchName +++ after)
    with ((remote +++ "/" +++ branchName) +++ after)
    by (rewrite !append_assoc; reflexivity).
  apply startsWith_append.
Qed.

End AdapterFailures.

(** ** Numerals read back *)

Lemma digitValue_digitChar (d : Z) : 0 <= d < 10 -> digitValue (digitChar d) = Some d.
Proof.
  intros H.
  assert (Hd : d = 0 \/ d = 1 \/ d = 2 \/ d = 3 \/ d = 4 \/ d = 5 \/ d = 6 \/ d = 7
               \/ d = 8 \/ d = 9) by lia.
  repeat (destruct Hd as [->|Hd]; [reflexivity|]). subst. reflexivity.
Qed.

Lemma decimalDigits_S (f : nat) (n : Z) (acc : string) :
  decimalDigits (S f) n acc
  = if n <? 10 then String (digitChar (n mod 10)) acc
    else decimalDigits f (n / 10) (String (digitChar (n mod 10)) acc).
Proof. reflexivity. Qed.

Lemma parseDigits_digit (d : Z) (acc : string) (a : option Z) :
  0 <= d < 10 ->
  parseDigits 10 (String (digitChar d) acc) a
  = parseDigits 10 acc (Some (match a with Some x => x * 10 + d | None => d end)).
Proof.
  intros Hd. cbn [parseDigits]. rewrite digitValue_digitChar by exact Hd.
  destruct (Z.ltb_spec d 10); [reflexivity | lia].
Qed.

Lemma parseDigits_decimalDigits (f : nat) (n : Z) (acc : string) :
  0 <= n < 10 ^ Z.of_nat (S f) ->
  parseDigits 10 (decimalDigits (S f) n acc) None = parseDigits 10 acc (Some n).
Proof.
  revert n acc; induction f as [|f IH]; intros n acc Hn; rewrite decimalDigits_S.
  - change (10 ^ Z.of_nat 1) with 10 in Hn.
    destruct (Z.ltb_spec n 10); [|lia].
    rewrite Z.mod_small by lia. apply parseDigits_digit. lia.
  - destruct (Z.ltb_spec n 10).
    + rewrite Z.mod_small by lia. apply parseDigits_digit. lia.
    + rewrite IH.
      * assert (Hm : 0 <= n mod 10 < 10) by (apply Z.mod_pos_bound; lia).
        rewrite parseDigits_digit by exact Hm.
        f_equal. f_equal. pose proof (Z.div_mod n 10). lia.
      * split; [apply Z.div_pos; lia|].
        apply Z.div_lt_upper_bound; [lia|].
        replace (Z.of_nat (S (S f))) with (Z.of_nat (S f) + 1) in Hn by lia.
        rewrite Z.pow_add_r in Hn by lia. lia.
Qed.

Lemma decimal_fuel (n : Z) : 0 <= n -> n < 10 ^ Z.of_nat (S (Z.to_nat (Z.log2 n))).
Proof.
  intros Hn. pose proof (Z.log2_nonneg n) as Hl.
  replace (Z.of_nat (S (Z.to_nat (Z.log2 n)))) with (Z.log2 n + 1) by lia.
  destruct (Z.eq_dec n 0) as [->|Hnz]; [reflexivity|].
  destruct (Z.log2_spec n) as [_ Hup]; [lia|].
  replace (Z.succ (Z.log2 n)) with (Z.log2 n + 1) in Hup by lia.
  apply Z.lt_le_trans with (2 ^ (Z.log2 n + 1)); [exact Hup|].
  apply Z.pow_le_mono_l. lia.
Qed.

Lemma parseDigits_decimal (n : Z) : 0 <= n -> parseDigits 10 (decimal n) None = Some n.
Proof.
  intros Hn. unfold decimal. rewrite parseDigits_decimalDigits; [reflexivity|].
  split; [exact Hn | apply decimal_fuel; exact Hn].
Qed.

Lemma digit_facts (c : ascii) :
  isDigit c = true ->
  isStrWhiteSpaceChar c = false /\ Ascii.eqb c "-"%char = false /\
  Ascii.eqb c "+"%char = false /\ Ascii.eqb c "."%char = false /\
  (Ascii.eqb c "x"%char || Ascii.eqb c "X"%char) = false.
Proof.
  destruct c as [[] [] [] [] [] [] [] []]; intros H; try discriminate H;
    repeat split; reflexivity.
Qed.

(** [parseInt] on a string of digits, with or without a minus sign. *)
Lemma parseInt_digits (c : ascii) (r : string) :
  allDigits (String c r) = true ->
  parseInt (String c r)
  = match parseDigits 10 (String c r) None with
    | None => NaN
    | Some n => round64 (1 * n)
    end
  /\ parseInt (String "-"%char (String c r))
     = match parseDigits 10 (String c r) None with
       | None => NaN
       | Some n => round64 (-1 * n)
       end.
Proof.
  intros H. cbn [allDigits] in H. apply andb_true_iff in H. destruct H as [Hc Hr].
  destruct (digit_facts c Hc) as [Hws [Hminus [Hplus [_ _]]]].
  assert (Hradix : forall sign : Z,
             (let '(R, S2) :=
                match String c r with
                | String "0"%char (String x r') =>
                    if Ascii.eqb x "x"%char || Ascii.eqb x "X"%char
                    then (16, r') else (10, String c r)
                | _ => (10, String c r)
                end in
              match parseDigits R S2 None with
              | None => NaN
              | Some mathInt => round64 (sign * mathInt)
              end)
             = match parseDigits 10 (String c r) None with
               | None => NaN
               | Some n => round64 (sign * n)
               end).
  { intros sign. destruct r as [|x r'].
    - destruct c as [[] [] [] [] [] [] [] []]; reflexivity.
    - cbn [allDigits] in Hr. apply andb_true_iff in Hr. destruct Hr as [Hx _].
      destruct (digit_facts x Hx) as [_ [_ [_ [_ Hxx]]]].
      destruct c as [[] [] [] [] [] [] [] []]; try reflexivity.
      rewrite Hxx. reflexivity. }
  split.
  - unfold parseInt. cbn [trimStart]. rewrite Hws.
    replace (match String c r with
             | String "-"%char r0 => (-1, r0)
             | String "+"%char r0 => (1, r0)
             | _ => (1, String c r)
             end) with (1, String c r).
    + apply (Hradix 1).
    + destruct c as [[] [] [] [] [] [] [] []]; try reflexivity; discriminate.
  - unfold parseInt. cbn [trimStart].
    change (isStrWhiteSpaceChar "-"%char) with false. cbv iota.
    apply (Hradix (-1)).
Qed.

(** The text of a safe integer parses back to it. *)
Lemma parseInt_decimalZ (z : Z) : Z.abs z < 2 ^ 53 -> parseInt (decimalZ z) = Fin z.
Proof.
  intros Hz. unfold decimalZ. destruct (Z.ltb_spec z 0).
  - destruct (decimal_cons (- z)) as [c [r [E Hd]]].
    rewrite E. destruct (parseInt_digits c r Hd) as [_ ->].
    rewrite <- E, parseDigits_decimal by lia.
    replace (-1 * - z) with z by lia. apply round64_exact. exact Hz.
  - destruct (decimal_cons z) as [c [r [E Hd]]].
    rewrite E. destruct (parseInt_digits c r Hd) as [-> _].
    rewrite <- E, parseDigits_decimal by lia.
    replace (1 * z) with z by lia. apply round64_exact. exact Hz.
Qed.

(** ** The version that comes out is new *)

Lemma finalComponent_digits (s cur : string) :
  allDigits s = true -> finalComponent cur s = cur +++ s.
Proof.
  revert cur; induction s as [|c s IH]; intros cur H.
  - simpl. rewrite append_nil_r. reflexivity.
  - cbn [allDigits] in H. apply andb_true_iff in H. destruct H as [Hc Hs].
    destruct (digit_facts c Hc) as [_ [_ [_ [Hdot _]]]].
    cbn [finalComponent]. rewrite Hdot, IH by exact Hs.
    rewrite append_assoc. reflexivity.
Qed.

Lemma finalComponent_decimalZ (z : Z) (cur : string) :
  finalComponent cur (decimalZ z) = cur +++ decimalZ z.
Proof.
  unfold decimalZ. destruct (z <? 0).
  - destruct (decimal_cons (- z)) as [c [r [-> Hd]]].
    change (finalComponent cur (String "-"%char (String c r)))
      with (finalComponent (cur +++ "-") (String c r)).
    rewrite finalComponent_digits by exact Hd. rewrite append_assoc. reflexivity.
  - destruct (decimal_cons z) as [c [r [-> Hd]]].
    apply finalComponent_digits. exact Hd.
Qed.

Lemma finalComponent_after_dot (a s cur : string) :
  finalComponent cur (a +++ String "."%char s) = finalComponent EmptyString s.
Proof.
  revert cur; induction a as [|c a IH]; intros cur; [reflexivity|].
  cbn [String.append finalComponent]. destruct (Ascii.eqb c "."%char); apply IH.
Qed.

(** The final component of a version with a numeral as its suffix. *)
Lemma finalComponent_suffixed (base : string) (z : Z) :
  finalComponent EmptyString (base +++ "." +++ decimalZ z) = decimalZ z.
Proof.
  change (base +++ "." +++ decimalZ z) with (base +++ String "."%char (decimalZ z)).
  rewrite finalComponent_after_dot. apply finalComponent_decimalZ.
Qed.

Lemma parseOrZero_suffixed (base : string) (z : Z) :
  Z.abs z < 2 ^ 53 ->
  parseOrZero (finalComponent EmptyString (base +++ "." +++ decimalZ z)) = Fin z.
Proof.
  intros Hz. rewrite finalComponent_suffixed. unfold parseOrZero.
  rewrite parseInt_decimalZ by exact Hz. reflexivity.
Qed.

Lemma prefix_append (p rest : string) : String.prefix p (p +++ rest) = true.
Proof. rewrite <- startsWith_prefix. apply startsWith_append. Qed.

Lemma in_parsedComponents (base v : string) (existing : list string) :
  In v existing -> String.prefix base v = true ->
  In (parseOrZero (finalComponent EmptyString v)) (parsedComponents base existing).
Proof.
  intros Hin Hp. unfold parsedComponents, matching.
  apply (in_map (fun v => parseOrZero (finalComponent EmptyString v))).
  apply filter_In. split; assumption.
Qed.

Lemma Number_leb_refl (a : number) : notNaN a -> Number_leb a a = true.
Proof. destruct a; simpl; try congruence. intros _. apply Z.leb_refl. Qed.

Lemma Number_leb_max_l (a b : number) :
  notNaN a -> notNaN b -> Number_leb a (Number_max a b) = true.
Proof.
  intros Ha Hb. unfold Number_max. destruct (Number_leb a b) eqn:E; [exact E|].
  apply Number_leb_refl. exact Ha.
Qed.

Lemma Number_leb_trans (a b c : number) :
  Number_leb a b = true -> Number_leb b c = true -> Number_leb a c = true.
Proof.
  destruct a, b, c; simpl; try congruence.
  intros H1 H2. apply Z.leb_le in H1, H2. apply Z.leb_le. lia.
Qed.

Lemma maximum_ge_first (l : list number) (a : number) :
  notNaN a -> Forall notNaN l -> Number_leb a (maximum a l) = true.
Proof.
  revert a; induction l as [|x l IH]; intros a Ha Hl; cbn [maximum].
  - apply Number_leb_refl. exact Ha.
  - inversion Hl; subst.
    apply Number_leb_trans with (Number_max a x).
    + apply Number_leb_max_l; assumption.
    + apply IH; [apply Number_max_notNaN|]; assumption.
Qed.

(** The maximum is at least every element. *)
Lemma maximum_ge (l : list number) (a x : number) :
  notNaN a -> Forall notNaN l -> In x (a :: l) -> Number_leb x (maximum a l) = true.
Proof.
  revert a; induction l as [|y l IH]; intros a Ha Hl Hin.
  - destruct Hin as [<- | []]. apply Number_leb_refl. exact Ha.
  - inversion Hl; subst. cbn [maximum].
    destruct Hin as [<- | [<- | Hin]].
    + apply Number_leb_trans with (Number_max a y).
      * apply Number_leb_max_l; assumption.
      * apply maximum_ge_first; [apply Number_max_notNaN|]; assumption.
    + apply Number_leb_trans with (Number_max a y).
      * rewrite Number_max_comm by assumption. apply Number_leb_max_l; assumption.
      * apply maximum_ge_first; [apply Number_max_notNaN|]; assumption.
    + apply IH; [apply Number_max_notNaN; assumption | assumption | right; exact Hin].
Qed.

(** X11.  The version [generateIncremental] returns is new: it is not one
    of the existing versions, provided the maximum parsed component plus 1
    is below 2^53 in magnitude. *)
Theorem generateIncremental_fresh (baseVersion : string) (existingVersions : list string) :
  (forall n ns, parsedComponents baseVersion existingVersions = n :: ns ->
     exists m, maximum n ns = Fin m /\ Z.abs (m + 1) < 2 ^ 53) ->
  ~ In (generateIncremental baseVersion existingVersions) existingVersions.
Proof.
  intros Hsafe Hin. rewrite generateIncremental_cases in Hin.
  pose proof (parsedComponents_notNaN baseVersion existingVersions) as Hall.
  destruct (parsedComponents baseVersion existingVersions) as [|n ns] eqn:Hparsed.
  - (* the base would match itself *)
    pose proof (in_parsedComponents baseVersion baseVersion existingVersions Hin) as H.
    rewrite Hparsed in H. apply H.
    rewrite <- (append_nil_r baseVersion) at 2. apply prefix_append.
  - destruct (Hsafe n ns eq_refl) as [m [Hmax Hm]].
    rewrite Hmax in Hin. cbn [Number_add] in Hin.
    rewrite round64_exact, Number_toString_safe in Hin by exact Hm.
    pose proof (in_parsedComponents baseVersion _ existingVersions Hin
                  (prefix_append _ _)) as H.
    rewrite parseOrZero_suffixed, Hparsed in H by exact Hm.
    inversion Hall as [|? ? Hn Hns]; subst.
    pose proof (maximum_ge ns n (Fin (m + 1)) Hn Hns H) as Hle.
    rewrite Hmax in Hle. simpl in Hle. apply Z.leb_le in Hle. lia.
Qed.

Lemma generateIncremental_fresh_witness :
  ~ In (generateIncremental "2024.01.15" ["2024.01.15"; "2024.01.15.3"; "2024.01.15.1"])
       ["2024.01.15"; "2024.01.15.3"; "2024.01.15.1"].
Proof.
  apply (generateIncremental_fresh "2024.01.15"
           ["2024.01.15"; "2024.01.15.3"; "2024.01.15.1"]).
  intros n ns H. vm_compute in H. injection H as <- <-.
  exists 15. split; [vm_compute; reflexivity | vm_compute; reflexivity].
Defined.

Lemma parsedComponents_cons_match (base v : string) (existing : list string) :
  String.prefix base v = true ->
  parsedComponents base (v :: existing)
  = parseOrZero (finalComponent EmptyString v) :: parsedComponents base existing.
Proof.
  intros Hp. unfold parsedComponents, matching. cbn [filter]. rewrite Hp. reflexivity.
Qed.

Lemma parsedComponents_no_match (base : string) (existing : list string) :
  (forall v, In v existing -> ~ has_prefix base v) ->
  parsedComponents base existing = [].
Proof.
  intros H. unfold parsedComponents. rewrite (matching_nil _ _ H). reflexivity.
Qed.

(** X12.  Releases follow one another: when the matches have the maximum
    parsed component [m], the result is the base with suffix [m + 1], and
    with that result added to the existing versions the next result has
    suffix [m + 2] (both below 2^53 in magnitude). *)
Theorem generateIncremental_next (baseVersion : string) (existingVersions : list string)
    (n : number) (ns : list number) (m : Z) :
  parsedComponents baseVersion existingVersions = n :: ns ->
  maximum n ns = Fin m ->
  Z.abs (m + 1) < 2 ^ 53 -> Z.abs (m + 2) < 2 ^ 53 ->
  generateIncremental baseVersion existingVersions
  = baseVersion +++ "." +++ decimalZ (m + 1) /\
  generateIncremental baseVersion
    (generateIncremental baseVersion existingVersions :: existingVersions)
  = baseVersion +++ "." +++ decimalZ (m + 2).
Proof.
  intros Hparsed Hmax H1 H2.
  pose proof (parsedComponents_notNaN baseVersion existingVersions) as Hall.
  rewrite Hparsed in Hall. inversion Hall as [|? ? Hn Hns]; subst.
  assert (Hfirst : generateIncremental baseVersion existingVersions
                   = baseVersion +++ "." +++ decimalZ (m + 1)).
  { rewrite generateIncremental_cases, Hparsed, Hmax. cbn [Number_add].
    rewrite round64_exact, Number_toString_safe by exact H1. reflexivity. }
  split; [exact Hfirst|].
  rewrite Hfirst, generateIncremental_cases.
  rewrite parsedComponents_cons_match by apply prefix_append.
  rewrite parseOrZero_suffixed, Hparsed by exact H1.
  cbn [maximum]. rewrite maximum_max by (trivial; discriminate).
  rewrite Hmax. unfold Number_max. cbn [Number_leb].
  destruct (Z.leb_spec (m + 1) m); [lia|].
  cbn [Number_add]. replace (m + 1 + 1) with (m + 2) by lia.
  rewrite round64_exact, Number_toString_safe by exact H2. reflexivity.
Qed.

Lemma generateIncremental_next_witness :
  generateIncremental "2024.01.15" ["2024.01.15.3"; "2024.01.15.1"]
  = "2024.01.15" +++ "." +++ decimalZ (3 + 1) /\
  generateIncremental "2024.01.15"
    (generateIncremental "2024.01.15" ["2024.01.15.3"; "2024.01.15.1"]
     :: ["2024.01.15.3"; "2024.01.15.1"])
  = "2024.01.15" +++ "." +++ decimalZ (3 + 2).
Proof.
  apply (generateIncremental_next "2024.01.15" ["2024.01.15.3"; "2024.01.15.1"]
           (Fin 3) [Fin 1] 3); vm_compute; reflexivity.
Defined.

(** X13.  When the only match is the base version itself, the suffix is
    the final component of the base plus 1 (for "2024.01.15" the day 15
    gives ".16"), not 1. *)
Theorem generateIncremental_first_collision (baseVersion : string) (others : list string)
    (d : Z) :
  parseOrZero (finalComponent EmptyString baseVersion) = Fin d ->
  Z.abs (d + 1) < 2 ^ 53 ->
  (forall v, In v others -> ~ has_prefix baseVersion v) ->
  generateIncremental baseVersion (baseVersion :: others)
  = baseVersion +++ "." +++ decimalZ (d + 1).
Proof.
  intros Hd Hsafe Hothers. rewrite generateIncremental_cases.
  rewrite parsedComponents_cons_match.
  - rewrite Hd, (parsedComponents_no_match _ _ Hothers). cbn [maximum Number_add].
    rewrite round64_exact, Number_toString_safe by exact Hsafe. reflexivity.
  - rewrite <- (append_nil_r baseVersion) at 2. apply prefix_append.
Qed.

Lemma generateIncremental_first_collision_witness :
  generateIncremental "2024.01.15" ("2024.01.15" :: ["2023.12.01"])
  = "2024.01.15" +++ "." +++ decimalZ (15 + 1).
Proof.
  apply (generateIncremental_first_collision "2024.01.15" ["2023.12.01"] 15).
  - vm_compute. reflexivity.
  - vm_compute. reflexivity.
  - intros v [<-|[]] H. apply startsWith_has_prefix in H. vm_compute in H. discriminate H.
Defined.

(** ** The other formats of [generate] *)

(** X14.  For a valid date with UTC year between 0 and 9999, the format
    "YYYY.MM.DD" (in any letter case) gives year, month and day in 4, 2 and
    2 digits joined by dots (10 characters), "YY.MM.DD" gives the last two
    digits of the year, month and day (8 characters), and "YYYY.MM" gives
    year and month (7 characters). *)
Theorem generate_dotted (formatOther : Z -> string -> string)
    (this : CalVerGenerator) (t : Z) :
  0 <= YearFromTime t <= 9999 ->
  (toLowerCase (format this) = "yyyy.mm.dd" ->
   generate formatOther this (TimeValue t)
   = fixedDigits 4 (YearFromTime t) +++ "." +++ fixedDigits 2 (MonthFromTime t + 1)
     +++ "." +++ fixedDigits 2 (DateFromTime t)
   /\ String.length (generate formatOther this (TimeValue t)) = 10%nat) /\
  (toLowerCase (format this) = "yy.mm.dd" ->
   generate formatOther this (TimeValue t)
   = fixedDigits 2 (YearFromTime t mod 100) +++ "." +++ fixedDigits 2 (MonthFromTime t + 1)
     +++ "." +++ fixedDigits 2 (DateFromTime t)
   /\ String.length (generate formatOther this (TimeValue t)) = 8%nat) /\
  (toLowerCase (format this) = "yyyy.mm" ->
   generate formatOther this (TimeValue t)
   = fixedDigits 4 (YearFromTime t) +++ "." +++ fixedDigits 2 (MonthFromTime t + 1)
   /\ String.length (generate formatOther this (TimeValue t)) = 7%nat).
Proof.
  intros Hy.
  pose proof (MonthFromTime_bounds t). pose proof (DateFromTime_bounds t).
  assert (Hrem : Z.rem (YearFromTime t) 100 = YearFromTime t mod 100)
    by (apply Z.rem_mod_nonneg; lia).
  assert (Hyy : 0 <= YearFromTime t mod 100 < 100) by (apply Z.mod_pos_bound; lia).
  split; [|split]; intros Hfmt.
  - assert (Hgen : generate formatOther this (TimeValue t)
                   = Moment.tokenYYYY t +++ "." +++ Moment.tokenMM t +++ "."
                     +++ Moment.tokenDD t)
      by (unfold generate; rewrite Hfmt; reflexivity).
    rewrite Hgen. unfold Moment.tokenYYYY, Moment.tokenMM, Moment.tokenDD.
    rewrite zeroFill_4 by lia. rewrite !zeroFill_2 by lia.
    split; [reflexivity|].
    rewrite !length_append, !length_fixedDigits. reflexivity.
  - assert (Hgen : generate formatOther this (TimeValue t)
                   = Moment.tokenYY t +++ "." +++ Moment.tokenMM t +++ "."
                     +++ Moment.tokenDD t)
      by (unfold generate; rewrite Hfmt; reflexivity).
    rewrite Hgen. unfold Moment.tokenYY, Moment.tokenMM, Moment.tokenDD.
    rewrite Hrem. rewrite !zeroFill_2 by lia.
    split; [reflexivity|].
    rewrite !length_append, !length_fixedDigits. reflexivity.
  - assert (Hgen : generate formatOther this (TimeValue t)
                   = Moment.tokenYYYY t +++ "." +++ Moment.tokenMM t)
      by (unfold generate; rewrite Hfmt; reflexivity).
    rewrite Hgen. unfold Moment.tokenYYYY, Moment.tokenMM.
    rewrite zeroFill_4 by lia. rewrite !zeroFill_2 by lia.
    split; [reflexivity|].
    rewrite !length_append, !length_fixedDigits. reflexivity.
Qed.

Lemma generate_dotted_witness :
  generate (fun _ _ => EmptyString) (new_CalVerGenerator None None) (TimeValue 1705276800000)
  = "2024.01.15"
  /\ String.length (generate (fun _ _ => EmptyString) (new_CalVerGenerator None None)
                      (TimeValue 1705276800000)) = 10%nat.
Proof.
  assert (Hy : 0 <= YearFromTime 1705276800000 <= 9999) by (vm_compute; split; discriminate).
  destruct (generate_dotted (fun _ _ => EmptyString) (new_CalVerGenerator None None)
              1705276800000 Hy) as [H _].
  destruct (H eq_refl) as [H1 H2]. split; [|exact H2].
  rewrite H1. vm_compute. reflexivity.
Defined.

(** X15.  For an invalid date [generate] returns "Invalid date" under
    every format. *)
Theorem generate_invalid_date (formatOther : Z -> string -> string)
    (this : CalVerGenerator) :
  generate formatOther this InvalidDate = "Invalid date".
Proof.
  unfold generate. cbv zeta.
  repeat match goal with
         | |- (if ?b then _ else _) = _ => destruct b; [reflexivity|]
         end.
  reflexivity.
Qed.

Lemma tokens_same_day (t1 t2 : Z) :
  Day t1 = Day t2 ->
  Moment.tokenYYYY t1 = Moment.tokenYYYY t2 /\ Moment.tokenYY t1 = Moment.tokenYY t2 /\
  Moment.tokenMM t1 = Moment.tokenMM t2 /\ Moment.tokenDD t1 = Moment.tokenDD t2.
Proof.
  intros Hday.
  assert (Hy : YearFromTime t1 = YearFromTime t2) by (unfold YearFromTime; congruence).
  assert (Hl : InLeapYear t1 = InLeapYear t2) by (unfold InLeapYear; rewrite Hy; reflexivity).
  assert (Hw : DayWithinYear t1 = DayWithinYear t2)
    by (unfold DayWithinYear; rewrite Hy, Hday; reflexivity).
  assert (Hm : MonthFromTime t1 = MonthFromTime t2)
    by (unfold MonthFromTime; rewrite Hw, Hl; reflexivity).
  assert (Hd : DateFromTime t1 = DateFromTime t2)
    by (unfold DateFromTime; rewrite Hw, Hl, Hm; reflexivity).
  unfold Moment.tokenYYYY, Moment.tokenYY, Moment.tokenMM, Moment.tokenDD.
  rewrite Hy, Hm, Hd. repeat split; reflexivity.
Qed.

(** X16.  Under the formats made of year, month and day, two moments of
    the same UTC day get the same version. *)
Theorem generate_same_day (formatOther : Z -> string -> string)
    (this : CalVerGenerator) (t1 t2 : Z) :
  In (toLowerCase (format this)) ["yyyy.mm.dd"; "yy.mm.dd"; "yyyy.mm"; "yyyymmdd"] ->
  t1 / 86400000 = t2 / 86400000 ->
  generate formatOther this (TimeValue t1) = generate formatOther this (TimeValue t2).
Proof.
  intros Hfmt Hday.
  destruct (tokens_same_day t1 t2 Hday) as [H4 [H2 [Hm Hd]]].
  unfold generate. cbv zeta.
  destruct Hfmt as [<- | [<- | [<- | [<- | []]]]]; cbn [String.eqb Ascii.eqb];
    unfold Moment.format, Moment.utc; cbn [String.eqb Ascii.eqb Bool.eqb];
    rewrite ?H4, ?H2, ?Hm, ?Hd; reflexivity.
Qed.

Lemma generate_same_day_witness :
  generate (fun _ _ => EmptyString) (new_CalVerGenerator None None) (TimeValue 1705276800000)
  = generate (fun _ _ => EmptyString) (new_CalVerGenerator None None)
      (TimeValue 1705363199999).
Proof.
  apply (generate_same_day (fun _ _ => EmptyString) (new_CalVerGenerator None None)
           1705276800000 1705363199999).
  - left. reflexivity.
  - reflexivity.
Defined.

(** X17.  [generate] reads a recognised format without regard to letter
    case: two generators whose formats agree in lower case, on one of the
    six names, give the same version. *)
Theorem generate_ignores_case (formatOther : Z -> string -> string)
    (a b : CalVerGenerator) (date : Date) :
  toLowerCase (format a) = toLowerCase (format b) ->
  In (toLowerCase (format a))
     ["yyyy.mm.dd"; "yy.mm.dd"; "yyyy.mm"; "yyyy.ww"; "yyyymmdd"; "yyyy.ddd"] ->
  generate formatOther a date = generate formatOther b date.
Proof.
  intros Heq Hin. unfold generate. cbv zeta. rewrite <- Heq.
  destruct Hin as [<- | [<- | [<- | [<- | [<- | [<- | []]]]]]]; reflexivity.
Qed.

Lemma generate_ignores_case_witness :
  generate (fun _ _ => EmptyString) (new_CalVerGenerator (Some "yyyy.Mm.dD") None)
    (TimeValue 1705276800000)
  = generate (fun _ _ => EmptyString) (new_CalVerGenerator None None)
      (TimeValue 1705276800000).
Proof.
  apply (generate_ignores_case (fun _ _ => EmptyString)
           (new_CalVerGenerator (Some "yyyy.Mm.dD") None) (new_CalVerGenerator None None)
           (TimeValue 1705276800000)).
  - reflexivity.
  - left. reflexivity.
Defined.

(** ** The further properties at work on scripted runs *)


Lemma create_outside_repository_witness :
  createAction (Scripted.scripted Scripted.failing) Scripted.defaults (tt, [])
  = (Exited 1,
     (tt, [EvGit Status; EvError [chalk red "Error: Not in a git repository"]; EvExit 1])).
Proof.
  apply (create_outside_repository (Scripted.scripted Scripted.failing) Scripted.defaults
           tt tt (MkError "fatal: not a git repository")).
  reflexivity.
Defined.

Lemma create_pushes_only_on_request_witness :
  Forall (fun e => isPush e = false)
    (trace (snd (createAction (Scripted.scripted Scripted.january15) Scripted.defaults
                   (tt, [])))).
Proof.
  apply (create_pushes_only_on_request (Scripted.scripted Scripted.january15)
           Scripted.defaults tt); reflexivity.
Defined.

Lemma createBranch_in_order_witness :
  (Returned tt = Returned tt /\
   trace (tt, createBranchSteps "release/v2024.01.15" (Some "main")
              ++ [EvLog [chalk green ("✓ Created and switched to branch: "
                                      +++ "release/v2024.01.15")]])
   = trace (tt, []) ++ createBranchSteps "release/v2024.01.15" (Some "main")
     ++ [EvLog [chalk green ("✓ Created and switched to branch: "
                             +++ "release/v2024.01.15")]]) \/
  (exists e attempted,
     Returned tt = Thrown e /\
     trace (tt, createBranchSteps "release/v2024.01.15" (Some "main")
                ++ [EvLog [chalk green ("✓ Created and switched to branch: "
                                        +++ "release/v2024.01.15")]])
     = trace (tt, []) ++ attempted /\
     attempted <> [] /\
     isPrefixOf attempted (createBranchSteps "release/v2024.01.15" (Some "main"))).
Proof.
  apply (createBranch_in_order (Scripted.scripted Scripted.january15)
           "release/v2024.01.15" (Some "main") (tt, [])).
  reflexivity.
Defined.

Lemma status_failure_handling_witness :
  isGitRepo (Scripted.scripted Scripted.failing) (tt, [])
  = (Returned false, (tt, trace (tt, []) ++ [EvGit Status])) /\
  getCurrentBranch (Scripted.scripted Scripted.failing) (tt, [])
  = (Thrown (MkError "fatal: not a git repository"),
     (tt, trace (tt, []) ++ [EvGit Status])) /\
  isClean (Scripted.scripted Scripted.failing) (tt, [])
  = (Thrown (MkError "fatal: not a git repository"),
     (tt, trace (tt, []) ++ [EvGit Status])).
Proof.
  apply (status_failure_handling (Scripted.scripted Scripted.failing) (tt, [])
           (MkError "fatal: not a git repository") tt).
  reflexivity.
Defined.

Lemma getRepoInfo_failure_message_witness :
  exists cause,
    message (MkError "Failed to get repository info: fatal: not a git repository")
    = "Failed to get repository info: " +++ message cause /\
    (fst (git_getRemotes (Scripted.scripted Scripted.failing) (fst (tt, @nil event))) = inl cause \/
     exists remotes,
       fst (git_getRemotes (Scripted.scripted Scripted.failing) (fst (tt, @nil event))) = inr remotes /\
       fst (git_status (Scripted.scripted Scripted.failing)
              (snd (git_getRemotes (Scripted.scripted Scripted.failing) (fst (tt, @nil event)))))
       = inl cause).
Proof.
  apply (getRepoInfo_failure_message (Scripted.scripted Scripted.failing) (tt, [])
           (tt, [EvGit GetRemotes])
           (MkError "Failed to get repository info: fatal: not a git repository")).
  reflexivity.
Defined.

Lemma remoteBranchExists_substring_witness :
  remoteBranchExists (Scripted.scripted Scripted.branchTaken) "release/v2024.01" "origin"
    (tt, [])
  = (Returned true, (tt, trace (tt, []) ++ [EvGit BranchRemote])).
Proof.
  apply (remoteBranchExists_substring (Scripted.scripted Scripted.branchTaken)
           "release/v2024.01" "origin" "" ".15"
           ["origin/main"; "origin/release/v2024.01.15"] (tt, []) tt).
  - reflexivity.
  - right. left. reflexivity.
Defined.

(** ** Versions sort by date *)

Lemma DayFromYear_mono (a b : Z) : a <= b -> DayFromYear a <= DayFromYear b.
Proof. intros H. unfold DayFromYear. Z.to_euclidean_division_equations. lia. Qed.

Lemma YearFromDay_mono (d1 d2 : Z) : d1 <= d2 -> YearFromDay d1 <= YearFromDay d2.
Proof.
  intros H. pose proof (YearFromDay_spec d1) as [H1 _].
  pose proof (YearFromDay_spec d2) as [_ H2].
  destruct (Z_le_gt_dec (YearFromDay d1) (YearFromDay d2)) as [Hle|Hgt]; [exact Hle|].
  pose proof (DayFromYear_mono (YearFromDay d2 + 1) (YearFromDay d1) ltac:(lia)). lia.
Qed.

Lemma Day_mono (t1 t2 : Z) : t1 <= t2 -> Day t1 <= Day t2.
Proof. intros H. unfold Day, msPerDay. apply Z.div_le_mono; lia. Qed.

(** Within one year the month and then the day of the month follow the day
    of the year. *)
Lemma month_date_mono (t1 t2 : Z) :
  YearFromTime t1 = YearFromTime t2 -> Day t1 <= Day t2 ->
  MonthFromTime t1 < MonthFromTime t2 \/
  (MonthFromTime t1 = MonthFromTime t2 /\ DateFromTime t1 <= DateFromTime t2).
Proof.
  intros Hy Hd.
  assert (Hl : InLeapYear t1 = InLeapYear t2) by (unfold InLeapYear; rewrite Hy; reflexivity).
  assert (Hw : DayWithinYear t1 <= DayWithinYear t2)
    by (unfold DayWithinYear; rewrite Hy; lia).
  pose proof (DayWithinYear_bounds t1) as B1. pose proof (DayWithinYear_bounds t2) as B2.
  pose proof (InLeapYear_cases t2) as Hc.
  unfold DateFromTime, MonthFromTime. rewrite Hl in *.
  set (a := DayWithinYear t1) in *. set (b := DayWithinYear t2) in *.
  set (leap := InLeapYear t2) in *.
  repeat match goal with
         | |- context [if ?u <? ?v then _ else _] => destruct (Z.ltb_spec u v)
         end; lia.
Qed.

Lemma compare_digitChar (x y : Z) :
  0 <= x < 10 -> 0 <= y < 10 ->
  Ascii.compare (digitChar x) (digitChar y) = Z.compare x y.
Proof.
  intros Hx Hy.
  assert (Ex : x = 0 \/ x = 1 \/ x = 2 \/ x = 3 \/ x = 4 \/ x = 5 \/ x = 6 \/ x = 7
               \/ x = 8 \/ x = 9) by lia.
  assert (Ey : y = 0 \/ y = 1 \/ y = 2 \/ y = 3 \/ y = 4 \/ y = 5 \/ y = 6 \/ y = 7
               \/ y = 8 \/ y = 9) by lia.
  repeat (destruct Ex as [->|Ex]); try subst x;
    repeat (destruct Ey as [->|Ey]); try subst y; reflexivity.
Qed.

(** Numerals of one width compare as their numbers, and what follows them
    decides between equal ones. *)
Lemma compare_fixedDigits (w : nat) (a b : Z) (r1 r2 : string) :
  0 <= a < 10 ^ Z.of_nat w -> 0 <= b < 10 ^ Z.of_nat w ->
  String.compare (fixedDigits w a +++ r1) (fixedDigits w b +++ r2)
  = match Z.compare a b with
    | Eq => String.compare r1 r2
    | c => c
    end.
Proof.
  revert a b r1 r2; induction w as [|w IH]; intros a b r1 r2 Ha Hb.
  - change (10 ^ Z.of_nat 0) with 1 in *.
    assert (a = 0) by lia. assert (b = 0) by lia. subst. reflexivity.
  - replace (Z.of_nat (S w)) with (Z.of_nat w + 1) in * by lia.
    rewrite Z.pow_add_r in Ha, Hb by lia. change (10 ^ 1) with 10 in *.
    cbn [fixedDigits]. rewrite !append_assoc.
    rewrite IH.
    2, 3: (split; [apply Z.div_pos; lia | apply Z.div_lt_upper_bound; lia]).
    cbn [String.append String.compare].
    assert (Hma : 0 <= a mod 10 < 10) by (apply Z.mod_pos_bound; lia).
    assert (Hmb : 0 <= b mod 10 < 10) by (apply Z.mod_pos_bound; lia).
    rewrite compare_digitChar by assumption.
    pose proof (Z.div_mod a 10 ltac:(lia)) as Da.
    pose proof (Z.div_mod b 10 ltac:(lia)) as Db.
    destruct (Z.compare_spec (a / 10) (b / 10)) as [E|E|E].
    + destruct (Z.compare_spec (a mod 10) (b mod 10)) as [E'|E'|E'];
        destruct (Z.compare_spec a b); try reflexivity; lia.
    + destruct (Z.compare_spec a b); try reflexivity; lia.
    + destruct (Z.compare_spec a b); try reflexivity; lia.
Qed.

Lemma compare_dot (r1 r2 : string) :
  String.compare ("." +++ r1) ("." +++ r2) = String.compare r1 r2.
Proof. reflexivity. Qed.

Lemma tokenYYYY_fixed (t : Z) :
  0 <= YearFromTime t <= 9999 -> Moment.tokenYYYY t = fixedDigits 4 (YearFromTime t).
Proof. intros H. unfold Moment.tokenYYYY. apply zeroFill_4. exact H. Qed.

Lemma tokenMM_fixed (t : Z) : Moment.tokenMM t = fixedDigits 2 (MonthFromTime t + 1).
Proof.
  unfold Moment.tokenMM. apply zeroFill_2. pose proof (MonthFromTime_bounds t). lia.
Qed.

Lemma tokenDD_fixed (t : Z) : Moment.tokenDD t = fixedDigits 2 (DateFromTime t).
Proof.
  unfold Moment.tokenDD. apply zeroFill_2. pose proof (DateFromTime_bounds t). lia.
Qed.

(** X18.  Under the formats "YYYY.MM.DD", "YYYY.MM" and "YYYYMMDD", for
    UTC years between 0 and 9999, a later moment never gets an earlier
    version in the order of strings. *)
Theorem generate_chronological (formatOther : Z -> string -> string)
    (this : CalVerGenerator) (t1 t2 : Z) :
  In (toLowerCase (format this)) ["yyyy.mm.dd"; "yyyy.mm"; "yyyymmdd"] ->
  0 <= YearFromTime t1 -> YearFromTime t2 <= 9999 -> t1 <= t2 ->
  String_le (generate formatOther this (TimeValue t1))
            (generate formatOther this (TimeValue t2)) = true.
Proof.
  intros Hfmt Hlo Hhi Hle.
  pose proof (Day_mono _ _ Hle) as Hday.
  pose proof (YearFromDay_mono _ _ Hday) as Hyear.
  fold (YearFromTime t1) in Hyear. fold (YearFromTime t2) in Hyear.
  pose proof (MonthFromTime_bounds t1). pose proof (MonthFromTime_bounds t2).
  pose proof (DateFromTime_bounds t1). pose proof (DateFromTime_bounds t2).
  assert (Hmd : YearFromTime t1 = YearFromTime t2 ->
                MonthFromTime t1 < MonthFromTime t2 \/
                (MonthFromTime t1 = MonthFromTime t2 /\ DateFromTime t1 <= DateFromTime t2))
    by (intros E; apply month_date_mono; assumption).
  unfold String_le, String.leb.
  destruct Hfmt as [Hf | [Hf | [Hf | []]]].
  - assert (Hg : forall t, generate formatOther this (TimeValue t)
                   = Moment.tokenYYYY t +++ "." +++ Moment.tokenMM t +++ "."
                     +++ Moment.tokenDD t)
      by (intros t; unfold generate; rewrite <- Hf; reflexivity).
    rewrite !Hg, !tokenYYYY_fixed, !tokenMM_fixed, !tokenDD_fixed by lia.
    rewrite compare_fixedDigits by (change (10 ^ Z.of_nat 4) with 10000; lia).
    destruct (Z.compare_spec (YearFromTime t1) (YearFromTime t2)) as [E|E|E];
      [|reflexivity|lia].
    rewrite compare_dot.
    rewrite compare_fixedDigits by (change (10 ^ Z.of_nat 2) with 100; lia).
    destruct (Z.compare_spec (MonthFromTime t1 + 1) (MonthFromTime t2 + 1)) as [E'|E'|E'];
      [|reflexivity|destruct (Hmd E); lia].
    rewrite compare_dot.
    rewrite <- (append_nil_r (fixedDigits 2 (DateFromTime t1))).
    rewrite <- (append_nil_r (fixedDigits 2 (DateFromTime t2))).
    rewrite compare_fixedDigits by (change (10 ^ Z.of_nat 2) with 100; lia).
    destruct (Z.compare_spec (DateFromTime t1) (DateFromTime t2)) as [E''|E''|E''];
      [reflexivity|reflexivity|destruct (Hmd E); lia].
  - assert (Hg : forall t, generate formatOther this (TimeValue t)
                   = Moment.tokenYYYY t +++ "." +++ Moment.tokenMM t)
      by (intros t; unfold generate; rewrite <- Hf; reflexivity).
    rewrite !Hg, !tokenYYYY_fixed, !tokenMM_fixed by lia.
    rewrite compare_fixedDigits by (change (10 ^ Z.of_nat 4) with 10000; lia).
    destruct (Z.compare_spec (YearFromTime t1) (YearFromTime t2)) as [E|E|E];
      [|reflexivity|lia].
    rewrite compare_dot.
    rewrite <- (append_nil_r (fixedDigits 2 (MonthFromTime t1 + 1))).
    rewrite <- (append_nil_r (fixedDigits 2 (MonthFromTime t2 + 1))).
    rewrite compare_fixedDigits by (change (10 ^ Z.of_nat 2) with 100; lia).
    destruct (Z.compare_spec (MonthFromTime t1 + 1) (MonthFromTime t2 + 1)) as [E'|E'|E'];
      [reflexivity|reflexivity|destruct (Hmd E); lia].
  - assert (Hg : forall t, generate formatOther this (TimeValue t)
                   = Moment.tokenYYYY t +++ Moment.tokenMM t +++ Moment.tokenDD t)
      by (intros t; unfold generate; rewrite <- Hf; reflexivity).
    rewrite !Hg, !tokenYYYY_fixed, !tokenMM_fixed, !tokenDD_fixed by lia.
    rewrite compare_fixedDigits by (change (10 ^ Z.of_nat 4) with 10000; lia).
    destruct (Z.compare_spec (YearFromTime t1) (YearFromTime t2)) as [E|E|E];
      [|reflexivity|lia].
    rewrite compare_fixedDigits by (change (10 ^ Z.of_nat 2) with 100; lia).
    destruct (Z.compare_spec (MonthFromTime t1 + 1) (MonthFromTime t2 + 1)) as [E'|E'|E'];
      [|reflexivity|destruct (Hmd E); lia].
    rewrite <- (append_nil_r (fixedDigits 2 (DateFromTime t1))).
    rewrite <- (append_nil_r (fixedDigits 2 (DateFromTime t2))).
    rewrite compare_fixedDigits by (change (10 ^ Z.of_nat 2) with 100; lia).
    destruct (Z.compare_spec (DateFromTime t1) (DateFromTime t2)) as [E''|E''|E''];
      [reflexivity|reflexivity|destruct (Hmd E); lia].
Qed.

Lemma generate_chronological_witness :
  String_le
    (generate (fun _ _ => EmptyString) (new_CalVerGenerator None None)
       (TimeValue 1704067199999))
    (generate (fun _ _ => EmptyString) (new_CalVerGenerator None None)
       (TimeValue 1705276800000)) = true.
Proof.
  apply (generate_chronological (fun _ _ => EmptyString) (new_CalVerGenerator None None)
           1704067199999 1705276800000).
  - left. reflexivity.
  - vm_compute. discriminate.
  - vm_compute. discriminate.
  - lia.
Defined.
